(** * Board rendering: the encoder of [image/image.go]

    A shallow embedding of the Go package [image] (board position to SVG):
    option resolution ([new], [Flip], [SquareColors], [MarkSquares]), the
    per-square geometry and colour functions ([xyForSquare],
    [colorForSquare], [colorForText], [colorToHex], [pieceXML]) and the
    drawing loop ([Encode], [SVG]).

    Conventions of the embedding.
    - Go [int] values are [Z]; where the source multiplies or adds
      configuration values the 64-bit wrap-around is written out
      ([int_wrap]).  [chess.Square] (an [int8]) is a [Z].
    - A Go pointer that may be nil is an [option]; a Go map that may be
      nil is an [option (gmap _ _)].  Reading a missing key yields the
      zero value, writing to a nil map panics.
    - A Go panic is the [Panic] constructor of [result].
    - Calls that leave the package (the [Format] sink, the svg canvas and
      its writer) are recorded in a history of [call]s; what such a call
      answers is given by a [Sink], a function of the history so far. *)

From Stdlib Require Import ZArith QArith Lia Ascii.
From stdpp Require Import gmap strings list pretty.

Open Scope Z_scope.

(** ** Go runtime *)

(** A computation that either yields a value or panics. *)
Inductive result (A : Type) : Type :=
| Ok (a : A)
| Panic (msg : string).
Arguments Ok {A} a.
Arguments Panic {A} msg.

#[global] Instance result_ret : MRet result := fun _ a => Ok a.
#[global] Instance result_bind : MBind result := fun _ _ f r =>
  match r with
  | Ok a => f a
  | Panic msg => Panic msg
  end.

(** The Go [error] interface: [None] is [nil]. *)
Definition error : Type := option string.
Definition nil : error := None.

(** Two's-complement wrap-around of the 64-bit [int]. *)
Definition int_wrap (z : Z) : Z := (z + 2 ^ 63) mod 2 ^ 64 - 2 ^ 63.
Definition int_add (a b : Z) : Z := int_wrap (a + b).
Definition int_sub (a b : Z) : Z := int_wrap (a - b).
Definition int_mul (a b : Z) : Z := int_wrap (a * b).
(** Go's [/] truncates toward zero. *)
Definition int_div (a b : Z) : Z := int_wrap (Z.quot a b).

(** The double quote character, for the markup strings. *)
Definition dq : string := String "034"%char EmptyString.

(** [fmt.Sprintf("%d", z)]. *)
Definition fmt_d (z : Z) : string := pretty z.

(** One lowercase hexadecimal digit. *)
Definition hexDigit (d : Z) : ascii :=
  match String.get (Z.to_nat d) "0123456789abcdef" with
  | Some c => c
  | None => "?"%char
  end.

(** [fmt.Sprintf("%02x", b)] for a [uint8] value [b]. *)
Definition fmt_02x (b : Z) : string :=
  String (hexDigit (b / 16)) (String (hexDigit (b mod 16)) EmptyString).

(** [float64] values.  Every value the package computes is a [uint32]
    converted to [float64], multiplied by [1.0] and increased by [0.5]:
    such a value has at most 34 significant bits, so binary64 arithmetic
    is exact on it and a rational stands for the float. *)
Definition float64 : Type := Q.
Definition float64_of_uint32 (n : Z) : float64 := inject_Z n.

(** [uint8(f)]: the gc compiler truncates the float toward zero to a
    machine integer and keeps its low eight bits. *)
Definition uint8_of_float64 (f : float64) : Z :=
  Z.land (Z.quot (Qnum f) (Zpos (Qden f))) 255.

(** [strings.Replace(s, old, new, 1)] for a non-empty [old]: the first
    occurrence of [old] in [s] is replaced by [new]. *)
Fixpoint strings_Replace1 (s old new : string) : string :=
  if String.prefix old s
  then new +:+ String.substring (String.length old) (String.length s) s
  else match s with
       | EmptyString => EmptyString
       | String c s' => String c (strings_Replace1 s' old new)
       end.

(** ** Package [image/color] *)

(** [color.Color] is an interface with the single method
    [RGBA() (r, g, b, a uint32)]; a value of the interface is given by
    what that method returns. *)
Record Color : Type := mkColor { RGBA : Z * Z * Z * Z }.

(** The struct [color.RGBA{R, G, B, A}] (four [uint8] fields) and its
    [RGBA] method: [r = uint32(c.R); r |= r << 8], and so on. *)
Definition color_RGBA (R G B A : Z) : Color :=
  let widen (v : Z) := Z.lor v (Z.shiftl v 8) in
  mkColor (widen R, widen G, widen B, widen A).

#[global] Instance Color_eq_dec : EqDecision Color.
Proof. solve_decision. Defined.

(** ** Package [chess] (the parts the encoder queries) *)

(** [chess.Square], [chess.File] and [chess.Rank] are small integers. *)
Definition Square : Type := Z.

(** Modelled from the spec: [Square.File] and [Square.Rank] of package
    [chess] are not part of the source file.  A square index 0-63 derives
    a file (0-7, the column) and a rank (0-7, the row) by fixed
    arithmetic: the remainder and the quotient by the row length 8. *)
Definition File (sq : Square) : Z := Z.rem sq 8.
Definition Rank (sq : Square) : Z := Z.quot sq 8.

Definition FileA : Z := 0.
Definition Rank1 : Z := 0.

(** Modelled from the spec: [Rank.String] is the rank digit and
    [File.String] the file letter. *)
Definition Rank_String (r : Z) : string :=
  String.substring (Z.to_nat r) 1 "12345678".
Definition File_String (f : Z) : string :=
  String.substring (Z.to_nat f) 1 "abcdefgh".

Inductive PieceColor : Type := White | Black | NoColor.
Inductive PieceType : Type :=
| King | Queen | Rook | Bishop | Knight | Pawn | NoPieceType.

(** Modelled from the spec: a piece is a (colour, type) pair or the
    sentinel [NoPiece]. *)
Inductive Piece : Type :=
| NoPiece
| mkPiece (c : PieceColor) (t : PieceType).

#[global] Instance PieceColor_eq_dec : EqDecision PieceColor.
Proof. solve_decision. Defined.
#[global] Instance PieceType_eq_dec : EqDecision PieceType.
Proof. solve_decision. Defined.
#[global] Instance Piece_eq_dec : EqDecision Piece.
Proof. solve_decision. Defined.

Definition Piece_Color (p : Piece) : PieceColor :=
  match p with NoPiece => NoColor | mkPiece c _ => c end.
Definition Piece_Type (p : Piece) : PieceType :=
  match p with NoPiece => NoPieceType | mkPiece _ t => t end.

(** Modelled from the spec: the colour letter of the glyph naming
    convention, [w] or [b]. *)
Definition Color_String (c : PieceColor) : string :=
  match c with White => "w" | Black => "b" | NoColor => "-" end.

(** Modelled from the spec: a board is read through [SquareMap], a
    mapping from squares to the pieces standing on them. *)
Definition Board : Type := gmap Z Piece.
Definition SquareMap (b : Board) : gmap Z Piece := b.

(** ** Package [image] *)

(** *** Configuration *)

Record config : Type := mkConfig {
  sqWidth : Z;
  sqHeight : Z;
  flip : bool;
  light : Color;
  dark : Color
}.

(** [marks] is a map that may be nil, [cfg] a pointer that may be nil. *)
Record encoder : Type := mkEncoder {
  marks : option (gmap Z Color);
  cfg : option config
}.

(** [type Option func(cfg, e)], over a pointer to the configuration and
    a pointer to the encoder: the function updates the two objects it is
    handed, or panics. *)
Definition Option : Type := config -> encoder -> result (config * encoder).

Definition Flip : Option := fun cfg e =>
  Ok (mkConfig (sqWidth cfg) (sqHeight cfg) true (light cfg) (dark cfg), e).

Definition SquareColors (light' dark' : Color) : Option := fun cfg e =>
  Ok (mkConfig (sqWidth cfg) (sqHeight cfg) (flip cfg) light' dark', e).

(** [e.marks[sq] = c]. *)
Definition marks_assign (e : encoder) (sq : Square) (c : Color) : result encoder :=
  match marks e with
  | None => Panic "assignment to entry in nil map"
  | Some m => Ok (mkEncoder (Some (<[sq := c]> m)) (cfg e))
  end.

(** [for _, sq := range sqs { e.marks[sq] = c }]. *)
Fixpoint markAll (c : Color) (sqs : list Square) (e : encoder) : result encoder :=
  match sqs with
  | [] => Ok e
  | sq :: rest => e' ← marks_assign e sq c; markAll c rest e'
  end.

Definition MarkSquares (c : Color) (sqs : list Square) : Option := fun cfg e =>
  e' ← markAll c sqs e; Ok (cfg, e').

(** The literal [&config{...}] at the head of [new]. *)
Definition defaultConfig : config :=
  {| sqWidth := 45;
     sqHeight := 45;
     flip := false;
     light := color_RGBA 235 209 166 1;
     dark := color_RGBA 165 117 81 1 |}.

(** The first loop of [new]: [op(cfg, &encoder{})], every option on the
    shared [cfg] and on a fresh zero-valued encoder that is dropped. *)
Fixpoint newFirstLoop (options : list Option) (cfg : config) : result config :=
  match options with
  | [] => Ok cfg
  | op :: rest =>
      r ← op cfg (mkEncoder None None);
      newFirstLoop rest r.1
  end.

(** The second loop of [new]: [op(cfg, e)]. *)
Fixpoint newSecondLoop (options : list Option) (cfg : config) (e : encoder)
  : result (config * encoder) :=
  match options with
  | [] => Ok (cfg, e)
  | op :: rest =>
      r ← op cfg e;
      newSecondLoop rest r.1 r.2
  end.

(** The body of [new] up to its [return]: the local [cfg] and the
    encoder [e] as they stand after both loops. *)
Definition newLocals (options : list Option) : result (config * encoder) :=
  cfg1 ← newFirstLoop options defaultConfig;
  newSecondLoop options cfg1 (mkEncoder (Some ∅) None).

(** [new] returns [e]; the composite literal it was built from sets
    [marks] only, and nothing assigns [e.cfg]. *)
Definition new (options : list Option) : result encoder :=
  r ← newLocals options; Ok r.2.

(** [boardSize] reads through [e.cfg]. *)
Definition boardSize (e : encoder) : result (Z * Z) :=
  match cfg e with
  | None => Panic "invalid memory address or nil pointer dereference"
  | Some c => Ok (int_mul (sqWidth c) 8, int_mul (sqHeight c) 8)
  end.

(** [e.cfg.f]: reading a field through the pointer. *)
Definition deref (p : option config) : result config :=
  match p with
  | None => Panic "invalid memory address or nil pointer dereference"
  | Some c => Ok c
  end.

(** *** Geometry and colour of a square *)

(** The source writes [e.dark] and [e.light]; the two colours are fields
    of [config], which the encoder reaches through [e.cfg]. *)
Definition colorForSquare (e : encoder) (sq : Square) : result Color :=
  let sqSum := File sq + Rank sq in
  if decide (Z.rem sqSum 2 = 0)
  then c ← deref (cfg e); Ok (dark c)
  else c ← deref (cfg e); Ok (light c).

Definition colorForText (e : encoder) (sq : Square) : result Color :=
  let sqSum := File sq + Rank sq in
  if decide (Z.rem sqSum 2 = 0)
  then c ← deref (cfg e); Ok (light c)
  else c ← deref (cfg e); Ok (dark c).

Definition xyForSquare (sq : Square) : Z * Z :=
  let fileIndex := File sq in
  let rankIndex := 7 - Rank sq in
  (fileIndex, rankIndex).

Definition colorToHex (c : Color) : string :=
  let '(r, g, b, _) := RGBA c in
  let half : float64 := (1 # 2)%Q in
  "#" +:+ fmt_02x (uint8_of_float64 (float64_of_uint32 r + half)%Q)
      +:+ fmt_02x (uint8_of_float64 (float64_of_uint32 g * 1 + half)%Q)
      +:+ fmt_02x (uint8_of_float64 (float64_of_uint32 b * 1 + half)%Q).

(** The map literal [pieceTypeMap]; a missing key reads as the empty
    string. *)
Definition pieceTypeMap (t : PieceType) : string :=
  match t with
  | King => "K"
  | Queen => "Q"
  | Rook => "R"
  | Bishop => "B"
  | Knight => "N"
  | Pawn => "P"
  | NoPieceType => ""
  end.

(** The [<svg ...>] head of every glyph asset, and the head [pieceXML]
    puts in its place. *)
Definition glyphHead : string :=
  "<svg xmlns=" +:+ dq +:+ "http://www.w3.org/2000/svg" +:+ dq
  +:+ " version=" +:+ dq +:+ "1.1" +:+ dq
  +:+ " width=" +:+ dq +:+ "45" +:+ dq
  +:+ " height=" +:+ dq +:+ "45" +:+ dq +:+ ">".

Definition viewBoxHead (ox oy : Z) : string :=
  "<svg xmlns=" +:+ dq +:+ "http://www.w3.org/2000/svg" +:+ dq
  +:+ " version=" +:+ dq +:+ "1.1" +:+ dq
  +:+ " width=" +:+ dq +:+ "360" +:+ dq
  +:+ " height=" +:+ dq +:+ "360" +:+ dq
  +:+ " viewBox=" +:+ dq +:+ fmt_d ox +:+ " " +:+ fmt_d oy +:+ " 360 360" +:+ dq +:+ ">".

(** *** Calls that leave the package *)

(** The three methods of the [Format] interface, the methods of the svg
    canvas the encoder uses, and the write to the canvas' writer. *)
Inductive call : Type :=
| Format_Init
| Format_DrawSquare (xIdx yIdx : Z) (col : Color)
| Format_DrawPiece (xIdx yIdx : Z) (piece : Piece)
| canvas_Rect (x y w h : Z) (style : string)
| canvas_Text (x y : Z) (t : string) (style : string)
| canvas_End
| io_WriteString (s : string).

(** What a call answers, given the calls made before it.  The canvas
    methods return nothing; their answer is never read.  The one
    [Format] of the package, [svgFormat], is such a sink: its three
    method bodies are left unfinished in the source and are not part of
    the embedding. *)
Definition Sink : Type := list call -> call -> error.

(** A drawing computation: it extends the history and yields a value or
    panics. *)
Definition draw (A : Type) : Type := list call -> list call * result A.

#[global] Instance draw_ret : MRet draw := fun _ a h => (h, Ok a).
#[global] Instance draw_bind : MBind draw := fun _ _ f m h =>
  match m h with
  | (h', Ok a) => f a h'
  | (h', Panic msg) => (h', Panic msg)
  end.

Definition lift {A : Type} (r : result A) : draw A := fun h => (h, r).

Definition perform (k : Sink) (c : call) : draw error :=
  fun h => (h ++ [c], Ok (k h c)).

(** How one round of the loop ends: fall through to the next round, or
    [return err]. *)
Inductive flow : Type :=
| Continue
| ReturnErr (err : error).

(** [for i := 0; i < 64; i++ { body }], over the values [i] takes. *)
Fixpoint forEach (body : Z -> draw flow) (idx : list Z) : draw flow :=
  match idx with
  | [] => mret Continue
  | i :: rest =>
      fl ← body i;
      match fl with
      | Continue => forEach body rest
      | ReturnErr err => mret (ReturnErr err)
      end
  end.

Section Encoder.

(** [internal.MustAsset]: the embedded glyph documents, by file name.
    It panics on a name it does not hold. *)
Variable MustAsset : string -> result string.

Definition pieceXML (x y : Z) (p : Piece) : result string :=
  let fileName :=
    "pieces/" +:+ Color_String (Piece_Color p) +:+ pieceTypeMap (Piece_Type p) +:+ ".svg" in
  svgStr ← MustAsset fileName;
  let old := glyphHead in
  let new := viewBoxHead (int_mul (-1) x) (int_mul (-1) y) in
  Ok (strings_Replace1 svgStr old new).

(** [markColor, ok := e.marks[sq]]: a nil map reads as an empty one. *)
Definition marks_lookup (e : encoder) (sq : Square) : option Color :=
  match marks e with
  | None => None
  | Some m => m !! sq
  end.

(** One round of the loop of [Encode].  The source writes [canvas],
    [sqWidth] and [sqHeight] bare: the canvas is the one the calls are
    recorded for, the two sizes are the fields of [e.cfg]. *)
Definition encodeSquare (e : encoder) (boardMap : gmap Z Piece) (k : Sink) (i : Z)
  : draw flow :=
  let sq : Square := i in
  let '(x, y) := xyForSquare sq in
  (* draw square *)
  c ← lift (colorForSquare e sq);
  _ ← perform k (Format_DrawSquare x y c);
  _ ← match marks_lookup e sq with
      | Some markColor =>
          conf ← lift (deref (cfg e));
          perform k (canvas_Rect x y (sqWidth conf) (sqHeight conf)
                       ("fill-opacity:0.2;fill: " +:+ colorToHex markColor))
      | None => mret nil
      end;
  (* draw piece *)
  let p := default NoPiece (boardMap !! sq) in
  fl ← (if decide (p <> NoPiece)
        then
          xml ← lift (pieceXML x y p);
          err ← perform k (io_WriteString xml);
          match err with
          | Some _ => mret (ReturnErr err)
          | None => mret Continue
          end
        else mret Continue);
  match fl with
  | ReturnErr err => mret (ReturnErr err)
  | Continue =>
      (* draw rank text on file A *)
      txtColor ← lift (colorForText e sq);
      _ ← (if decide (File sq = FileA)
           then
             conf ← lift (deref (cfg e));
             let style := "font-size:11px;fill: " +:+ colorToHex txtColor in
             perform k (canvas_Text
                          (int_add x (int_div (int_mul (sqWidth conf) 1) 20))
                          (int_add y (int_div (int_mul (sqHeight conf) 5) 20))
                          (Rank_String (Rank sq)) style)
           else mret nil);
      (* draw file text on rank 1 *)
      _ ← (if decide (Rank sq = Rank1)
           then
             conf ← lift (deref (cfg e));
             let style := "text-anchor:end;font-size:11px;fill: " +:+ colorToHex txtColor in
             perform k (canvas_Text
                          (int_add x (int_div (int_mul (sqWidth conf) 19) 20))
                          (int_sub (int_add y (sqHeight conf))
                                   (int_div (int_mul (sqHeight conf) 1) 15))
                          (File_String (File sq)) style)
           else mret nil);
      mret Continue
  end.

(** [Encode].  The error of [f.Init] is only used to build a new error
    value with [fmt.Errorf], which is dropped: no [return] follows.  The
    result of [f.DrawSquare] is not read. *)
Definition Encode (e : encoder) (b : Board) (k : Sink) : draw error :=
  _ ← lift (boardSize e);
  let boardMap := SquareMap b in
  err ← perform k Format_Init;
  let _ := match err with
           | Some msg => Some ("failed to init output formatter: " +:+ msg)
           | None => None
           end in
  fl ← forEach (encodeSquare e boardMap k) (seqZ 0 64);
  match fl with
  | ReturnErr err => mret err
  | Continue =>
      _ ← perform k canvas_End;
      mret nil
  end.

(** [SVG].  The sink [k] stands for the [svgFormat] built over the
    writer; its composite literal reads [e.cfg.sqWidth] and
    [e.cfg.sqHeight]. *)
Definition SVG (k : Sink) (b : Board) (opts : list Option) : draw error :=
  e ← lift (new opts);
  _ ← lift (boardSize e);
  _ ← lift (deref (cfg e));
  Encode e b k.

End Encoder.

(** ** Reading a history *)

(** The arguments of the [DrawSquare] calls, in the order they were made. *)
Definition fills (h : list call) : list (Z * Z * Color) :=
  omap (fun c => match c with
                 | Format_DrawSquare x y col => Some (x, y, col)
                 | _ => None
                 end) h.

(** The arguments of the [canvas.Rect] calls. *)
Definition overlays (h : list call) : list (Z * Z * Z * Z * string) :=
  omap (fun c => match c with
                 | canvas_Rect x y w h style => Some (x, y, w, h, style)
                 | _ => None
                 end) h.

(** The piece draws: a glyph written to the canvas' writer, or a
    [DrawPiece] call. *)
Definition isPieceDraw (c : call) : bool :=
  match c with
  | io_WriteString _ | Format_DrawPiece _ _ _ => true
  | _ => false
  end.
Definition pieceDraws (h : list call) : list call := filter (fun c => isPieceDraw c = true) h.

(** The [canvas.Text] calls: position and text of the labels. *)
Definition labels (h : list call) : list (Z * Z * string) :=
  omap (fun c => match c with
                 | canvas_Text x y t _ => Some (x, y, t)
                 | _ => None
                 end) h.

(** The glyph documents written. *)
Definition glyphs (h : list call) : list string :=
  omap (fun c => match c with io_WriteString s => Some s | _ => None end) h.



(** The pixel position of the grid cell of a square: its column times
    the square width, its row times the square height. *)
Definition pixelXY (c : config) (sq : Square) : Z * Z :=
  ((xyForSquare sq).1 * sqWidth c, (xyForSquare sq).2 * sqHeight c).

(** ** The calls of one round, written out *)

Section Rounds.

Variable MustAsset : string -> result string.
Variable c : config.
Variable e : encoder.
Variable boardMap : gmap Z Piece.

Definition fillColor (sq : Square) : Color :=
  if Z.even (File sq + Rank sq) then dark c else light c.

Definition textColor (sq : Square) : Color :=
  if Z.even (File sq + Rank sq) then light c else dark c.

Definition fillCall (sq : Square) : call :=
  Format_DrawSquare (File sq) (7 - Rank sq) (fillColor sq).

Definition overlayCalls (sq : Square) : list call :=
  match marks_lookup e sq with
  | Some markColor =>
      [canvas_Rect (File sq) (7 - Rank sq) (sqWidth c) (sqHeight c)
         ("fill-opacity:0.2;fill: " +:+ colorToHex markColor)]
  | None => []
  end.

Definition pieceAt (sq : Square) : Piece := default NoPiece (boardMap !! sq).

Definition pieceCalls (sq : Square) : list call :=
  if decide (pieceAt sq <> NoPiece)
  then match pieceXML MustAsset (File sq) (7 - Rank sq) (pieceAt sq) with
       | Ok xml => [io_WriteString xml]
       | Panic _ => []
       end
  else [].

Definition labelCalls (sq : Square) : list call :=
  (if decide (File sq = FileA)
   then [canvas_Text
           (int_add (File sq) (int_div (int_mul (sqWidth c) 1) 20))
           (int_add (7 - Rank sq) (int_div (int_mul (sqHeight c) 5) 20))
           (Rank_String (Rank sq))
           ("font-size:11px;fill: " +:+ colorToHex (textColor sq))]
   else [])
  ++
  (if decide (Rank sq = Rank1)
   then [canvas_Text
           (int_add (File sq) (int_div (int_mul (sqWidth c) 19) 20))
           (int_sub (int_add (7 - Rank sq) (sqHeight c))
                    (int_div (int_mul (sqHeight c) 1) 15))
           (File_String (File sq))
           ("text-anchor:end;font-size:11px;fill: " +:+ colorToHex (textColor sq))]
   else []).

(** What the fill of a square and the overlay of a marked square are
    called with. *)
Definition fillArgs (sq : Square) : Z * Z * Color :=
  (File sq, 7 - Rank sq, fillColor sq).

Definition overlayArgs (sq : Square) : option (Z * Z * Z * Z * string) :=
  match marks_lookup e sq with
  | Some markColor =>
      Some (File sq, 7 - Rank sq, sqWidth c, sqHeight c,
            "fill-opacity:0.2;fill: " +:+ colorToHex markColor)
  | None => None
  end.

(** A round that runs to its end, and a round cut short after the
    piece. *)
Definition roundCalls (sq : Square) : list call :=
  fillCall sq :: overlayCalls sq ++ pieceCalls sq ++ labelCalls sq.

Definition cutRoundCalls (sq : Square) : list call :=
  fillCall sq :: overlayCalls sq ++ pieceCalls sq.

End Rounds.

(** ** Inputs to run the encoder on *)

(** A sink on which no call fails. *)
Definition quietSink : Sink := fun _ _ => None.

(** A sink whose [Init] fails and whose [DrawSquare] fails. *)
Definition failingFormat : Sink := fun _ c =>
  match c with
  | Format_Init => Some "init failed"
  | Format_DrawSquare _ _ _ => Some "draw failed"
  | _ => None
  end.

(** A sink whose writer fails. *)
Definition brokenWriter : Sink := fun _ c =>
  match c with
  | io_WriteString _ => Some "short write"
  | _ => None
  end.

(** A glyph table holding, under every name, a document that opens
    with [glyphHead]. *)
Definition plainAssets (name : string) : result string :=
  Ok (glyphHead +:+ "<g/></svg>").

Definition red : Color := color_RGBA 255 0 0 255.

Definition defaultEncoder : encoder := mkEncoder (Some ∅) (Some defaultConfig).


(** The default configuration with square 5 (f1) marked in red. *)
Definition markedEncoder : encoder :=
  mkEncoder (Some {[ 5 := red ]}) (Some defaultConfig).

Definition emptyBoard : Board := ∅.
Definition kingOnA1 : Board := {[ 0 := mkPiece White King ]}.
Definition kingOnB1 : Board := {[ 1 := mkPiece White King ]}.

(** The three options, as data. *)
Inductive OptionArg : Type :=
| ArgFlip
| ArgSquareColors (light' dark' : Color)
| ArgMarkSquares (col : Color) (sqs : list Square).

Definition toOption (a : OptionArg) : Option :=
  match a with
  | ArgFlip => Flip
  | ArgSquareColors l d => SquareColors l d
  | ArgMarkSquares col sqs => MarkSquares col sqs
  end.

(** A configuration, and an encoder, with the flip flag set and all
    else unchanged. *)
Definition setFlip (c : config) : config :=
  mkConfig (sqWidth c) (sqHeight c) true (light c) (dark c).

Definition withFlip (e : encoder) : encoder :=
  mkEncoder (marks e) (setFlip <$> cfg e).

(** ** Option resolution in one pass *)

(** What one option does to the configuration it is handed. *)
Definition cfgStep (cf : config) (a : OptionArg) : config :=
  match a with
  | ArgFlip => setFlip cf
  | ArgSquareColors l d => mkConfig (sqWidth cf) (sqHeight cf) (flip cf) l d
  | ArgMarkSquares _ _ => cf
  end.

(** The options applied once, from left to right. *)
Definition resolveCfg (args : list OptionArg) (cf : config) : config :=
  foldl cfgStep cf args.

(** An option that writes no entry of the mark map. *)
Definition marksNothing (a : OptionArg) : bool :=
  match a with
  | ArgMarkSquares _ (_ :: _) => false
  | _ => true
  end.

Definition isFlip (a : OptionArg) : bool :=
  match a with ArgFlip => true | _ => false end.

(** The colours of the last [SquareColors] among the options, or the
    pair given when there is none. *)
Definition lastColors (args : list OptionArg) (start : Color * Color) : Color * Color :=
  foldl (fun acc a => match a with
                      | ArgSquareColors l d => (l, d)
                      | _ => acc
                      end) start args.

(** ** More inputs *)

(** A glyph table that holds nothing: every lookup panics, with the
    name that was asked for. *)
Definition noAssets (name : string) : result string := Panic name.

(** The texts of the labels of a square: the rank digit on file A, the
    file letter on rank 1. *)
Definition labelTexts (sq : Square) : list string :=
  (if decide (File sq = FileA) then [Rank_String (Rank sq)] else [])
  ++ (if decide (Rank sq = Rank1) then [File_String (File sq)] else []).

(** The calls a round of the loop can make. *)
Definition isRoundCall (c : call) : bool :=
  match c with
  | Format_DrawSquare _ _ _ | canvas_Rect _ _ _ _ _
  | canvas_Text _ _ _ _ | io_WriteString _ => true
  | _ => false
  end.

(** Whether [old] occurs somewhere in [s]. *)
Fixpoint occursIn (old s : string) : bool :=
  String.prefix old s
  || match s with
     | EmptyString => false
     | String _ s' => occursIn old s'
     end.

(** * Properties *)

(** ** Parity and the two colour functions *)

Lemma rem2_even (s : Z) : Z.rem s 2 = 0 <-> Z.even s = true.
Proof.
  rewrite Z.even_spec. split.
  - intros H. exists (Z.quot s 2). pose proof (Z.quot_rem' s 2). lia.
  - intros [k ->]. rewrite Z.mul_comm. apply Z.rem_mul. lia.
Qed.

Lemma colorForSquare_cfg e c sq :
  cfg e = Some c -> colorForSquare e sq = Ok (fillColor c sq).
Proof.
  intros Hc. unfold colorForSquare, fillColor. rewrite Hc. simpl.
  case_decide as H.
  - apply rem2_even in H. by rewrite H.
  - destruct (Z.even _) eqn:E; [|done]. by apply rem2_even in E.
Qed.

Lemma colorForText_cfg e c sq :
  cfg e = Some c -> colorForText e sq = Ok (textColor c sq).
Proof.
  intros Hc. unfold colorForText, textColor. rewrite Hc. simpl.
  case_decide as H.
  - apply rem2_even in H. by rewrite H.
  - destruct (Z.even _) eqn:E; [|done]. by apply rem2_even in E.
Qed.

(** Squares 0-63 have their file and rank in 0-7, and the index is
    recovered from the two. *)
Lemma File_Rank_range (sq : Z) :
  0 <= sq < 64 -> 0 <= File sq <= 7 /\ 0 <= Rank sq <= 7 /\ sq = 8 * Rank sq + File sq.
Proof.
  intros H. unfold File, Rank.
  rewrite Z.rem_mod_nonneg, Z.quot_div_nonneg by lia.
  pose proof (Z.div_mod sq 8). pose proof (Z.mod_pos_bound sq 8).
  assert (0 <= sq / 8 <= 7); [|lia].
  split; [apply Z.div_pos; lia|]. apply Z.lt_succ_r, Z.div_lt_upper_bound; lia.
Qed.


(** ** A prefix of an interval is an interval *)

Lemma seqZ_prefix (m n : Z) (l1 l2 : list Z) :
  seqZ m n = l1 ++ l2 -> l1 = seqZ m (Z.of_nat (length l1)).
Proof.
  intros H.
  assert (Hlen : (length l1 <= Z.to_nat n)%nat).
  { rewrite <- (length_seqZ m n), H, length_app. lia. }
  apply list_eq. intros i.
  destruct (decide (i < length l1)%nat) as [Hi|Hi].
  - rewrite lookup_seqZ_lt by lia.
    rewrite <- (lookup_app_l l1 l2) by done. rewrite <- H.
    apply lookup_seqZ_lt. lia.
  - rewrite lookup_ge_None_2 by lia. symmetry. apply lookup_seqZ_ge. lia.
Qed.

Lemma seqZ_split (m n : Z) (done : list Z) (sq : Z) (rest : list Z) :
  seqZ m n = done ++ sq :: rest ->
  let d := Z.of_nat (length done) in
  done = seqZ m d /\ sq = m + d /\ 0 <= d < n.
Proof.
  intros H d.
  pose proof (seqZ_prefix m n done _ H) as Hdone.
  assert (Hsq : seqZ m n !! length done = Some sq).
  { rewrite H. by rewrite list_lookup_middle. }
  apply lookup_seqZ in Hsq. subst d. split; [done|lia].
Qed.

(** ** One round, the loop and the whole of [Encode] *)

Section Trace.

Variable MustAsset : string -> result string.

(** An encoder whose configuration is set runs a round to its end, or
    cuts it short after the piece: on a failed write, or on a panic of
    the glyph lookup. *)
Lemma encodeSquare_round e c bm k i h :
  cfg e = Some c ->
  encodeSquare MustAsset e bm k i h = (h ++ roundCalls MustAsset c e bm i, Ok Continue)
  \/ pieceAt bm i <> NoPiece
     /\ (encodeSquare MustAsset e bm k i h).1 = h ++ cutRoundCalls MustAsset c e bm i
     /\ ((exists msg h' xml,
            (encodeSquare MustAsset e bm k i h).2 = Ok (ReturnErr (Some msg))
            /\ k h' (io_WriteString xml) = Some msg)
         \/ exists msg, (encodeSquare MustAsset e bm k i h).2 = Panic msg).
Proof.
  intros Hc.
  unfold encodeSquare, roundCalls, cutRoundCalls, overlayCalls, pieceCalls,
    labelCalls, pieceAt, xyForSquare.
  unfold mbind, draw_bind, mret, draw_ret, lift, perform; simpl.
  rewrite (colorForSquare_cfg _ _ _ Hc), (colorForText_cfg _ _ _ Hc), Hc. simpl.
  fold (fillCall c i).
  destruct (marks_lookup e i) as [mc|]; simpl;
    repeat case_decide; simpl;
    repeat (case_match; simplify_eq/=);
    rewrite <- ?app_assoc; simpl;
    first [ by left
          | by right; split; [|split; [rewrite <- ?app_assoc|eauto 10]] ].
Qed.

Lemma forEach_rounds e c bm k sqs h :
  cfg e = Some c ->
  forEach (encodeSquare MustAsset e bm k) sqs h
    = (h ++ concat (roundCalls MustAsset c e bm <$> sqs), Ok Continue)
  \/ exists done sq rest,
       sqs = done ++ sq :: rest
       /\ pieceAt bm sq <> NoPiece
       /\ (forEach (encodeSquare MustAsset e bm k) sqs h).1
          = h ++ concat (roundCalls MustAsset c e bm <$> done)
              ++ cutRoundCalls MustAsset c e bm sq
       /\ ((exists msg h' xml,
              (forEach (encodeSquare MustAsset e bm k) sqs h).2 = Ok (ReturnErr (Some msg))
              /\ k h' (io_WriteString xml) = Some msg)
           \/ exists msg, (forEach (encodeSquare MustAsset e bm k) sqs h).2 = Panic msg).
Proof.
  intros Hc. revert h. induction sqs as [|i rest IH]; intros h.
  - left. simpl. by rewrite app_nil_r.
  - rewrite fmap_cons. cbn [forEach concat]. unfold mbind, draw_bind.
    destruct (encodeSquare_round e c bm k i h Hc) as [Hfull|(Hp & Hh & Hres)].
    + rewrite Hfull.
      destruct (IH (h ++ roundCalls MustAsset c e bm i))
        as [Hall|(done & sq & rest' & -> & Hp & Hh & Hres)].
      * left. rewrite Hall. by rewrite <- app_assoc.
      * right. exists (i :: done), sq, rest'. do 2 (split; [done|]).
        split; [|done]. rewrite Hh, fmap_cons. cbn [concat].
        by rewrite <- !app_assoc.
    + right. exists [], i, rest. do 2 (split; [done|]).
      destruct (encodeSquare MustAsset e bm k i h) as [h1 r]. simpl in *. subst h1.
      destruct Hres as [(msg & h' & xml & -> & Hk)|[msg ->]]; simpl; eauto 8.
Qed.

(** [Encode] after its loop. *)
Lemma Encode_unfold e c b k h :
  cfg e = Some c ->
  Encode MustAsset e b k h
  = match forEach (encodeSquare MustAsset e b k) (seqZ 0 64) (h ++ [Format_Init]) with
    | (h', Ok Continue) => (h' ++ [canvas_End], Ok nil)
    | (h', Ok (ReturnErr err)) => (h', Ok err)
    | (h', Panic msg) => (h', Panic msg)
    end.
Proof.
  intros Hc. unfold Encode, boardSize, SquareMap. rewrite Hc.
  unfold mbind, draw_bind, lift, perform, mret, draw_ret.
  by destruct (forEach _ _ _) as [h' [[|err]|msg]].
Qed.

(** The two ways [Encode] ends for an encoder whose configuration is
    set: all 64 rounds and [End], with [nil] returned; or rounds
    [0 .. n-1] and round [n] cut short, with an error returned or a
    panic. *)
Lemma Encode_outcome e c b k h :
  cfg e = Some c ->
  Encode MustAsset e b k h
    = (h ++ Format_Init :: concat (roundCalls MustAsset c e b <$> seqZ 0 64) ++ [canvas_End],
       Ok nil)
  \/ exists n,
       0 <= n < 64
       /\ pieceAt b n <> NoPiece
       /\ (Encode MustAsset e b k h).1
          = h ++ Format_Init :: concat (roundCalls MustAsset c e b <$> seqZ 0 n)
              ++ cutRoundCalls MustAsset c e b n
       /\ ((exists msg h' xml,
              (Encode MustAsset e b k h).2 = Ok (Some msg)
              /\ k h' (io_WriteString xml) = Some msg)
           \/ exists msg, (Encode MustAsset e b k h).2 = Panic msg).
Proof.
  intros Hc. rewrite (Encode_unfold e c b k h Hc).
  destruct (forEach_rounds e c b k (seqZ 0 64) (h ++ [Format_Init]) Hc)
    as [Hall|(done & sq & rest & Hsplit & Hp & Hh & Hres)].
  - left. rewrite Hall. by rewrite <- !app_assoc.
  - right. apply seqZ_split in Hsplit as (Hdone & Hsq & Hn).
    exists (Z.of_nat (length done)). split; [done|].
    rewrite Z.add_0_l in Hsq. subst sq. split; [done|]. rewrite <- Hdone.
    destruct (forEach _ _ _) as [h1 r]. cbn [fst snd] in Hh, Hres. subst h1.
    destruct Hres as [(msg & h' & xml & -> & Hk)|[msg ->]]; cbn [fst snd].
    + split; [by rewrite <- !app_assoc|]. left. by exists msg, h', xml.
    + split; [by rewrite <- !app_assoc|]. right. by exists msg.
Qed.

End Trace.

(** ** What a history shows of the rounds *)

Section Readings.

Variable MustAsset : string -> result string.
Variable c : config.
Variable e : encoder.
Variable b : Board.

Lemma fills_app h1 h2 : fills (h1 ++ h2) = fills h1 ++ fills h2.
Proof. apply omap_app. Qed.

Lemma overlays_app h1 h2 : overlays (h1 ++ h2) = overlays h1 ++ overlays h2.
Proof. apply omap_app. Qed.

Lemma glyphs_app h1 h2 : glyphs (h1 ++ h2) = glyphs h1 ++ glyphs h2.
Proof. apply omap_app. Qed.


Lemma fills_overlayCalls sq : fills (overlayCalls c e sq) = [].
Proof. unfold overlayCalls. by destruct (marks_lookup e sq). Qed.

Lemma fills_pieceCalls sq : fills (pieceCalls MustAsset b sq) = [].
Proof. unfold pieceCalls. case_decide; [|done]. by destruct (pieceXML _ _ _ _). Qed.

Lemma fills_labelCalls sq : fills (labelCalls c sq) = [].
Proof. unfold labelCalls. by repeat case_decide. Qed.

Lemma fills_roundCalls sq : fills (roundCalls MustAsset c e b sq) = [fillArgs c sq].
Proof.
  unfold roundCalls. change (fillCall c sq :: ?l) with ([fillCall c sq] ++ l).
  by rewrite !fills_app, fills_overlayCalls, fills_pieceCalls, fills_labelCalls.
Qed.

Lemma fills_cutRoundCalls sq : fills (cutRoundCalls MustAsset c e b sq) = [fillArgs c sq].
Proof.
  unfold cutRoundCalls. change (fillCall c sq :: ?l) with ([fillCall c sq] ++ l).
  by rewrite !fills_app, fills_overlayCalls, fills_pieceCalls.
Qed.

Lemma fills_rounds sqs :
  fills (concat (roundCalls MustAsset c e b <$> sqs)) = fillArgs c <$> sqs.
Proof.
  induction sqs as [|sq sqs IH]; [done|].
  rewrite !fmap_cons. cbn [concat]. by rewrite fills_app, fills_roundCalls, IH.
Qed.

Lemma overlays_pieceCalls sq : overlays (pieceCalls MustAsset b sq) = [].
Proof. unfold pieceCalls. case_decide; [|done]. by destruct (pieceXML _ _ _ _). Qed.

Lemma overlays_labelCalls sq : overlays (labelCalls c sq) = [].
Proof. unfold labelCalls. by repeat case_decide. Qed.

Lemma overlays_overlayCalls sq :
  overlays (overlayCalls c e sq) = option_list (overlayArgs c e sq).
Proof. unfold overlayCalls, overlayArgs. by destruct (marks_lookup e sq). Qed.

Lemma overlays_roundCalls sq :
  overlays (roundCalls MustAsset c e b sq) = option_list (overlayArgs c e sq).
Proof.
  unfold roundCalls. change (fillCall c sq :: ?l) with ([fillCall c sq] ++ l).
  rewrite !overlays_app, overlays_overlayCalls, overlays_pieceCalls, overlays_labelCalls.
  simpl. by rewrite app_nil_r.
Qed.

Lemma overlays_cutRoundCalls sq :
  overlays (cutRoundCalls MustAsset c e b sq) = option_list (overlayArgs c e sq).
Proof.
  unfold cutRoundCalls. change (fillCall c sq :: ?l) with ([fillCall c sq] ++ l).
  rewrite !overlays_app, overlays_overlayCalls, overlays_pieceCalls.
  simpl. by rewrite app_nil_r.
Qed.

Lemma overlays_rounds sqs :
  overlays (concat (roundCalls MustAsset c e b <$> sqs)) = omap (overlayArgs c e) sqs.
Proof.
  induction sqs as [|sq sqs IH]; [done|].
  rewrite !fmap_cons. cbn [concat]. rewrite overlays_app, overlays_roundCalls, IH.
  simpl. by destruct (overlayArgs c e sq).
Qed.

Lemma fills_Init_cons h : fills (Format_Init :: h) = fills h.
Proof. done. Qed.

Lemma fills_End h : fills (h ++ [canvas_End]) = fills h.
Proof. rewrite fills_app. apply app_nil_r. Qed.

Lemma overlays_Init_cons h : overlays (Format_Init :: h) = overlays h.
Proof. done. Qed.

Lemma overlays_End h : overlays (h ++ [canvas_End]) = overlays h.
Proof. rewrite overlays_app. apply app_nil_r. Qed.



End Readings.

(** ** The fills and overlays of an [Encode] call *)

Section EncodeReadings.

Variable MustAsset : string -> result string.

(** The fills are those of the squares [0 .. n-1], in this order, for
    some [n]; [n] is 64 when [Encode] returns [nil]. *)
Lemma Encode_fills e c b k :
  cfg e = Some c ->
  exists n,
    0 <= n <= 64
    /\ fills (Encode MustAsset e b k []).1 = fillArgs c <$> seqZ 0 n
    /\ ((Encode MustAsset e b k []).2 = Ok nil -> n = 64).
Proof.
  intros Hc.
  destruct (Encode_outcome MustAsset e c b k [] Hc) as [->|(n & Hn & _ & -> & Hres)].
  - exists 64. split; [lia|]. split; [|done]. cbn [fst app].
    by rewrite fills_Init_cons, fills_End, fills_rounds.
  - exists (n + 1). split; [lia|]. split.
    + cbn [app]. rewrite fills_Init_cons, fills_app, fills_rounds, fills_cutRoundCalls.
      rewrite seqZ_app by lia. rewrite fmap_app.
      rewrite (seqZ_cons (0 + n)), (seqZ_nil (Z.succ (0 + n))) by lia.
      by rewrite Z.add_0_l.
    + intros Hnil.
      destruct Hres as [(msg & _ & _ & Hm & _)|[msg Hm]]; rewrite Hm in Hnil; done.
Qed.

Lemma Encode_overlays e c b k :
  cfg e = Some c ->
  exists n,
    0 <= n <= 64
    /\ overlays (Encode MustAsset e b k []).1 = omap (overlayArgs c e) (seqZ 0 n)
    /\ ((Encode MustAsset e b k []).2 = Ok nil -> n = 64).
Proof.
  intros Hc.
  destruct (Encode_outcome MustAsset e c b k [] Hc) as [->|(n & Hn & _ & -> & Hres)].
  - exists 64. split; [lia|]. split; [|done]. cbn [fst app].
    by rewrite overlays_Init_cons, overlays_End, overlays_rounds.
  - exists (n + 1). split; [lia|]. split.
    + cbn [app].
      rewrite overlays_Init_cons, overlays_app, overlays_rounds, overlays_cutRoundCalls.
      rewrite seqZ_app by lia. rewrite omap_app.
      rewrite (seqZ_cons (0 + n)), (seqZ_nil (Z.succ (0 + n))) by lia.
      rewrite Z.add_0_l.
      cbn [omap list_omap]. by destruct (overlayArgs c e n).
    + intros Hnil.
      destruct Hres as [(msg & _ & _ & Hm & _)|[msg Hm]]; rewrite Hm in Hnil; done.
Qed.

(** The [i]-th fill is the fill of square [i]. *)
Lemma Encode_fill_lookup e c b k (i : nat) a :
  cfg e = Some c ->
  fills (Encode MustAsset e b k []).1 !! i = Some a ->
  a = fillArgs c (Z.of_nat i) /\ 0 <= Z.of_nat i < 64.
Proof.
  intros Hc Hi. destruct (Encode_fills e c b k Hc) as (n & Hn & Hf & _).
  rewrite Hf, list_lookup_fmap in Hi.
  apply fmap_Some in Hi as (sq & Hsq & ->).
  apply lookup_seqZ in Hsq as [-> Hlt]. rewrite Z.add_0_l. split; [done|lia].
Qed.

End EncodeReadings.

(** ** The colour of a fill *)

(** C1.  The colour handed to [DrawSquare] for a square is the dark
    colour of the configuration when file + rank is even and the light
    colour when it is odd: [colorForSquare] computes exactly that for
    every square and every configuration, and the [i]-th [DrawSquare]
    call of any [Encode] call carries that colour for square [i].  The
    rule reads nothing of the configuration but its two colours. *)
Theorem fill_color_follows_parity
    (MustAsset : string -> result string) (e : encoder) (c : config)
    (b : Board) (k : Sink) (i : nat) (x y : Z) (col : Color) :
  cfg e = Some c ->
  fills (Encode MustAsset e b k []).1 !! i = Some (x, y, col) ->
  (forall sq : Square,
     colorForSquare e sq
     = Ok (if Z.even (File sq + Rank sq) then dark c else light c))
  /\ col = (if Z.even (File (Z.of_nat i) + Rank (Z.of_nat i))
            then dark c else light c).
Proof.
  intros Hc Hi. split.
  - intros sq. apply (colorForSquare_cfg e c sq Hc).
  - destruct (Encode_fill_lookup MustAsset e c b k i _ Hc Hi) as [Ha _].
    unfold fillArgs, fillColor in Ha. congruence.
Qed.

Lemma fill_color_follows_parity_witness :
  (forall sq : Square,
     colorForSquare defaultEncoder sq
     = Ok (if Z.even (File sq + Rank sq)
           then dark defaultConfig else light defaultConfig))
  /\ light defaultConfig
     = (if Z.even (File (Z.of_nat 1) + Rank (Z.of_nat 1))
        then dark defaultConfig else light defaultConfig).
Proof.
  apply (fill_color_follows_parity plainAssets defaultEncoder defaultConfig
           emptyBoard quietSink 1 1 7 (light defaultConfig)).
  - reflexivity.
  - vm_compute. reflexivity.
Defined.

(** ** The grid cell of a square *)

(** C2.  The grid coordinates the encoder computes for a square are its
    file index and 7 minus its rank index: [xyForSquare] returns that
    pair, the [i]-th [DrawSquare] call of any [Encode] call is made at
    that cell for square [i], both coordinates lie in 0-7, and rank
    index 7 (rank 8) is row 0, the top, and rank index 0 (rank 1) is
    row 7, the bottom.  The flip flag plays no part. *)
Theorem grid_cell_of_square
    (MustAsset : string -> result string) (e : encoder) (c : config)
    (b : Board) (k : Sink) (i : nat) (x y : Z) (col : Color) :
  cfg e = Some c ->
  fills (Encode MustAsset e b k []).1 !! i = Some (x, y, col) ->
  let sq : Square := Z.of_nat i in
  xyForSquare sq = (x, y)
  /\ x = File sq /\ y = 7 - Rank sq
  /\ 0 <= x <= 7 /\ 0 <= y <= 7
  /\ (Rank sq = 7 -> y = 0) /\ (Rank sq = 0 -> y = 7).
Proof.
  intros Hc Hi sq.
  destruct (Encode_fill_lookup MustAsset e c b k i _ Hc Hi) as [Ha Hrange].
  unfold fillArgs in Ha. injection Ha as -> -> _.
  destruct (File_Rank_range sq Hrange) as (HF & HR & _).
  unfold xyForSquare. fold sq. repeat split; lia.
Qed.

Lemma grid_cell_of_square_witness :
  xyForSquare (Z.of_nat 9) = (1, 6)
  /\ 1 = File (Z.of_nat 9) /\ 6 = 7 - Rank (Z.of_nat 9)
  /\ 0 <= 1 <= 7 /\ 0 <= 6 <= 7
  /\ (Rank (Z.of_nat 9) = 7 -> 6 = 0) /\ (Rank (Z.of_nat 9) = 0 -> 6 = 7).
Proof.
  apply (grid_cell_of_square plainAssets defaultEncoder defaultConfig
           emptyBoard quietSink 9 1 6 (dark defaultConfig)).
  - reflexivity.
  - vm_compute. reflexivity.
Defined.

(** ** The order of the visits *)






(** ** Errors of the sink *)

(** C4, what the code does.  [Encode] drops the error of [f.Init] and
    never reads the result of [f.DrawSquare]: on a sink whose [Init] and
    every [DrawSquare] fail, it still runs all 64 rounds, calls [End] and
    returns [nil].  The only error [Encode] ever returns is the answer
    of a write to the canvas' writer. *)
Theorem format_errors_are_dropped :
  (failingFormat [] Format_Init = Some "init failed"
   /\ (Encode plainAssets defaultEncoder emptyBoard failingFormat []).2 = Ok nil
   /\ length (fills (Encode plainAssets defaultEncoder emptyBoard failingFormat []).1) = 64%nat
   /\ last (Encode plainAssets defaultEncoder emptyBoard failingFormat []).1 = Some canvas_End)
  /\ (forall (MustAsset : string -> result string) (m : option (gmap Z Color))
        (c : config) (b : Board) (k : Sink) (msg : string),
        (Encode MustAsset (mkEncoder m (Some c)) b k []).2 = Ok (Some msg) ->
        exists h xml, k h (io_WriteString xml) = Some msg).
Proof.
  split.
  - vm_compute. repeat split; reflexivity.
  - intros MustAsset m c b k msg Hret.
    destruct (Encode_outcome MustAsset (mkEncoder m (Some c)) c b k [] eq_refl)
      as [Hall|(n & _ & _ & _ & [(msg' & h' & xml & Hm & Hk)|[msg' Hm]])].
    + rewrite Hall in Hret. done.
    + rewrite Hm in Hret. injection Hret as ->. by exists h', xml.
    + rewrite Hm in Hret. done.
Qed.

(** ** Option resolution *)

Lemma markAll_cfg col sqs e e' : markAll col sqs e = Ok e' -> cfg e' = cfg e.
Proof.
  revert e. induction sqs as [|sq sqs IH]; intros e; simpl.
  - by intros [= ->].
  - unfold marks_assign. destruct (marks e) as [m|]; simpl; [|done].
    intros H. by rewrite (IH _ H).
Qed.

Lemma toOption_cfg a cf e r : toOption a cf e = Ok r -> cfg r.2 = cfg e.
Proof.
  destruct a as [|l d|col sqs]; simpl.
  - by intros [= <-].
  - by intros [= <-].
  - unfold MarkSquares. destruct (markAll col sqs e) as [e'|] eqn:He; simpl; [|done].
    intros [= <-]. by apply markAll_cfg in He.
Qed.

Lemma newSecondLoop_cfg args cf e r :
  newSecondLoop (toOption <$> args) cf e = Ok r -> cfg r.2 = cfg e.
Proof.
  revert cf e. induction args as [|a args IH]; intros cf e; simpl.
  - by intros [= <-].
  - destruct (toOption a cf e) as [r1|] eqn:Ha; simpl; [|done].
    intros H. rewrite (IH _ _ H). by apply toOption_cfg in Ha.
Qed.

(** Whatever the options, the encoder [new] returns has no
    configuration. *)
Lemma new_cfg args e : new (toOption <$> args) = Ok e -> cfg e = None.
Proof.
  unfold new, newLocals.
  destruct (newFirstLoop _ _) as [cf|]; simpl; [|done].
  destruct (newSecondLoop _ _ _) as [r|] eqn:Hr; simpl; [|done].
  intros [= <-]. by apply newSecondLoop_cfg in Hr.
Qed.

(** An option that marks at least one square makes the first loop
    panic. *)
Lemma newFirstLoop_marks args cf col sq sqs :
  ArgMarkSquares col (sq :: sqs) ∈ args ->
  exists msg, newFirstLoop (toOption <$> args) cf = Panic msg.
Proof.
  intros Hin. revert cf. induction args as [|a args IH]; intros cf.
  - by apply elem_of_nil in Hin.
  - apply elem_of_cons in Hin as [<-|Hin].
    + simpl. eauto.
    + simpl. destruct (toOption a cf _) as [r|msg]; simpl; [by apply IH|eauto].
Qed.

Section EntryPoint.

Variable MustAsset : string -> result string.

(** C5, what the code does.  [new] never assigns [e.cfg], so [SVG]
    panics on its first read through it, in [boardSize], for every
    board and every list of options, before any call reaches the sink:
    no document is written and no error value is returned. *)
Theorem SVG_never_returns (k : Sink) (b : Board) (args : list OptionArg) (h : list call) :
  exists msg, SVG MustAsset k b (toOption <$> args) h = (h, Panic msg).
Proof.
  unfold SVG. unfold mbind at 1. unfold draw_bind, lift.
  destruct (new (toOption <$> args)) as [e|msg] eqn:He; [|by exists msg].
  apply new_cfg in He.
  unfold mbind at 1. unfold draw_bind, boardSize. rewrite He. eauto.
Qed.

End EntryPoint.

(** C9, what the code does.  The first loop of [new] hands every option
    a zero-valued encoder, whose [marks] map is nil: [MarkSquares] with
    one square panics there, and so does every option list that holds a
    [MarkSquares] with at least one square.  With no options at all
    [new] returns an encoder without a configuration. *)
Theorem new_panics_on_MarkSquares :
  new [MarkSquares red [0]] = Panic "assignment to entry in nil map"
  /\ new [] = Ok (mkEncoder (Some ∅) None)
  /\ (forall (args : list OptionArg) (col : Color) (sq : Square) (sqs : list Square),
        ArgMarkSquares col (sq :: sqs) ∈ args ->
        exists msg, new (toOption <$> args) = Panic msg)
  /\ (forall (args : list OptionArg) (e : encoder),
        new (toOption <$> args) = Ok e -> cfg e = None).
Proof.
  split; [reflexivity|]. split; [reflexivity|]. split.
  - intros args col sq sqs Hin. unfold new, newLocals.
    destruct (newFirstLoop_marks args defaultConfig col sq sqs Hin) as [msg ->].
    by exists msg.
  - apply new_cfg.
Qed.

(** ** The glyph of a piece *)

(** With a glyph table whose documents open with [glyphHead], the
    document [pieceXML] returns opens with the view-window head whose
    offsets are the negated arguments. *)
Lemma pieceXML_plainAssets x y p :
  pieceXML plainAssets x y p
  = Ok (viewBoxHead (int_mul (-1) x) (int_mul (-1) y) +:+ "<g/></svg>").
Proof.
  unfold pieceXML, plainAssets, mbind, result_bind.
  generalize (viewBoxHead (int_mul (-1) x) (int_mul (-1) y)). intros new.
  reflexivity.
Qed.

(** C6, what the code does.  With a white king on square 1 (file 1,
    rank 0) exactly one glyph is written, but [pieceXML] is handed the
    grid cell (1, 7) of the square, not its pixel position (45, 315):
    the view window is offset by (-1, -7), where the claim asks for
    (-45, -315). *)
Theorem glyph_offset_is_the_grid_cell :
  xyForSquare 1 = (1, 7)
  /\ pixelXY defaultConfig 1 = (45, 315)
  /\ glyphs (Encode plainAssets defaultEncoder kingOnB1 quietSink []).1
     = [viewBoxHead (-1) (-7) +:+ "<g/></svg>"]
  /\ pieceDraws (Encode plainAssets defaultEncoder kingOnB1 quietSink []).1
     = [io_WriteString (viewBoxHead (-1) (-7) +:+ "<g/></svg>")]
  /\ viewBoxHead (-1) (-7) <> viewBoxHead (-45) (-315)
  /\ (forall (x y : Z) (p : Piece),
        pieceXML plainAssets x y p
        = Ok (viewBoxHead (int_mul (-1) x) (int_mul (-1) y) +:+ "<g/></svg>")).
Proof.
  split; [reflexivity|]. split; [reflexivity|].
  split; [vm_compute; reflexivity|]. split; [vm_compute; reflexivity|].
  split; [vm_compute; congruence|]. apply pieceXML_plainAssets.
Qed.

(** ** Highlight overlays *)

(** A run cut short before a marked square: square 5 is marked, but
    with a king on square 0 and a writer that fails [Encode] returns in
    round 0 and no overlay is drawn. *)
Lemma marked_square_without_overlay :
  marks_lookup markedEncoder 5 = Some red
  /\ (Encode plainAssets markedEncoder kingOnA1 brokenWriter []).2 = Ok (Some "short write")
  /\ overlays (Encode plainAssets markedEncoder kingOnA1 brokenWriter []).1 = [].
Proof. vm_compute. repeat split; reflexivity. Qed.



(** The corner of every overlay is a pair of cell indices. *)
Lemma overlay_corner_is_a_cell
    (MustAsset : string -> result string) (m : option (gmap Z Color)) (c : config)
    (b : Board) (k : Sink) (a : Z * Z * Z * Z * string) :
  a ∈ overlays (Encode MustAsset (mkEncoder m (Some c)) b k []).1 ->
  0 <= a.1.1.1.1 <= 7 /\ 0 <= a.1.1.1.2 <= 7.
Proof.
  intros Hin.
  destruct (Encode_overlays MustAsset (mkEncoder m (Some c)) c b k eq_refl)
    as (n & Hn & Hov & _).
  rewrite Hov in Hin. apply list_elem_of_omap in Hin as (sq & Hsq & Ha).
  apply elem_of_seqZ in Hsq. unfold overlayArgs in Ha.
  destruct (marks_lookup _ sq) as [mc|]; [|done]. injection Ha as <-. cbn [fst snd].
  destruct (File_Rank_range sq ltac:(lia)) as (HF & HR & _). lia.
Qed.

(** C7, what the code does.  With square 5 (f1: file 5, rank 0) marked
    in red under the default 45 by 45 configuration, [Encode] draws
    exactly one overlay, in the style [fill-opacity:0.2] with the hex
    of red, but hands [canvas.Rect] the cell indices (5, 7) of the
    square as the corner of the rectangle, where the cell of the square
    lies at (225, 315) on the canvas: the overlay is not at the
    position of the square.  Whatever the marks, the board and the
    size of a square, the corner of an overlay never lies beyond
    (7, 7). *)
Theorem overlay_is_placed_by_cell_index :
  marks_lookup markedEncoder 5 = Some red
  /\ xyForSquare 5 = (5, 7)
  /\ pixelXY defaultConfig 5 = (225, 315)
  /\ (Encode plainAssets markedEncoder emptyBoard quietSink []).2 = Ok nil
  /\ overlays (Encode plainAssets markedEncoder emptyBoard quietSink []).1
     = [(5, 7, 45, 45, "fill-opacity:0.2;fill: #ff0000")]
  /\ (forall (MustAsset : string -> result string) (m : option (gmap Z Color))
        (c : config) (b : Board) (k : Sink) (a : Z * Z * Z * Z * string),
        a ∈ overlays (Encode MustAsset (mkEncoder m (Some c)) b k []).1 ->
        0 <= a.1.1.1.1 <= 7 /\ 0 <= a.1.1.1.2 <= 7).
Proof.
  split; [vm_compute; reflexivity|]. split; [reflexivity|]. split; [reflexivity|].
  split; [vm_compute; reflexivity|]. split; [vm_compute; reflexivity|].
  apply overlay_corner_is_a_cell.
Qed.

(** ** Hexadecimal colours *)

(** X1.  [colorToHex] of a [color.RGBA] whose channels are bytes is
    [#] followed by the red, green and blue bytes in two lowercase
    hexadecimal digits each; the alpha is not read. *)
Theorem colorToHex_of_byte_channels (R G B A : Z) :
  0 <= R < 256 -> 0 <= G < 256 -> 0 <= B < 256 ->
  colorToHex (color_RGBA R G B A) = "#" +:+ fmt_02x R +:+ fmt_02x G +:+ fmt_02x B.
Proof.
  intros HR HG HB. unfold colorToHex, color_RGBA. cbn [RGBA].
  assert (Hbytes : Forall (fun v =>
            uint8_of_float64 (float64_of_uint32 (Z.lor v (Z.shiftl v 8)) + (1 # 2))%Q = v
            /\ uint8_of_float64 (float64_of_uint32 (Z.lor v (Z.shiftl v 8)) * 1 + (1 # 2))%Q = v)
          (seqZ 0 256)).
  { apply (bool_decide_unpack _). vm_compute. exact I. }
  rewrite Forall_seqZ in Hbytes.
  destruct (Hbytes R ltac:(lia)) as [-> _].
  destruct (Hbytes G ltac:(lia)) as [_ ->].
  destruct (Hbytes B ltac:(lia)) as [_ ->]. done.
Qed.

Lemma colorToHex_of_byte_channels_witness :
  colorToHex (color_RGBA 255 0 0 255) = "#" +:+ fmt_02x 255 +:+ fmt_02x 0 +:+ fmt_02x 0.
Proof. apply (colorToHex_of_byte_channels 255 0 0 255); lia. Defined.

(** C8.  The configuration [new] starts from has the light colour
    RGB(235, 209, 166) and the dark colour RGB(165, 117, 81), and
    [colorToHex], which writes the fill styles, turns them into
    [#ebd1a6] and [#a57551]. *)
Theorem default_colors_in_hex :
  newLocals [] = Ok (defaultConfig, mkEncoder (Some ∅) None)
  /\ light defaultConfig = color_RGBA 235 209 166 1
  /\ dark defaultConfig = color_RGBA 165 117 81 1
  /\ colorToHex (light defaultConfig) = "#ebd1a6"
  /\ colorToHex (dark defaultConfig) = "#a57551".
Proof.
  split; [reflexivity|]. split; [reflexivity|]. split; [reflexivity|].
  split; vm_compute; reflexivity.
Qed.

(** ** The flip flag *)

Section FlipFlag.

Variable MustAsset : string -> result string.

Lemma colorForSquare_withFlip e sq : colorForSquare (withFlip e) sq = colorForSquare e sq.
Proof. unfold colorForSquare. case_decide; by destruct e as [m [cf|]]. Qed.

Lemma colorForText_withFlip e sq : colorForText (withFlip e) sq = colorForText e sq.
Proof. unfold colorForText. case_decide; by destruct e as [m [cf|]]. Qed.

Lemma encodeSquare_withFlip e bm k i h :
  encodeSquare MustAsset (withFlip e) bm k i h = encodeSquare MustAsset e bm k i h.
Proof.
  unfold encodeSquare.
  rewrite colorForSquare_withFlip, colorForText_withFlip.
  by destruct e as [m [cf|]].
Qed.

Lemma forEach_ext (f g : Z -> draw flow) (sqs : list Z) (h : list call) :
  (forall i h', f i h' = g i h') -> forEach f sqs h = forEach g sqs h.
Proof.
  intros Hfg. revert h. induction sqs as [|i sqs IH]; intros h; [done|].
  cbn [forEach]. unfold mbind, draw_bind. rewrite Hfg.
  destruct (g i h) as [h' [[|err]|msg]]; [apply IH|done..].
Qed.

Lemma Encode_withFlip e b k h :
  Encode MustAsset (withFlip e) b k h = Encode MustAsset e b k h.
Proof.
  unfold Encode, mbind, draw_bind, lift, perform.
  destruct e as [m [cf|]]; [|done].
  change (boardSize (withFlip (mkEncoder m (Some cf))))
    with (boardSize (mkEncoder m (Some cf))).
  destruct (boardSize _) as [wh|msg]; [|done].
  by rewrite (forEach_ext _ (encodeSquare MustAsset (mkEncoder m (Some cf)) (SquareMap b) k))
    by apply encodeSquare_withFlip.
Qed.

End FlipFlag.

Lemma newFirstLoop_app l1 l2 cf :
  newFirstLoop (l1 ++ l2) cf = (cf1 ← newFirstLoop l1 cf; newFirstLoop l2 cf1).
Proof.
  revert cf. induction l1 as [|op l1 IH]; intros cf; [done|].
  simpl. destruct (op cf _) as [r|msg]; simpl; [apply IH|done].
Qed.

Lemma newSecondLoop_app l1 l2 cf e :
  newSecondLoop (l1 ++ l2) cf e
  = (r ← newSecondLoop l1 cf e; newSecondLoop l2 r.1 r.2).
Proof.
  revert cf e. induction l1 as [|op l1 IH]; intros cf e; [done|].
  simpl. destruct (op cf e) as [r|msg]; simpl; [apply IH|done].
Qed.

(** Each of the three options commutes with setting the flip flag. *)
Lemma toOption_setFlip a cf e :
  toOption a (setFlip cf) e = (r ← toOption a cf e; Ok (setFlip r.1, r.2)).
Proof.
  destruct a as [|l d|col sqs]; simpl; [done..|].
  unfold MarkSquares. by destruct (markAll col sqs e).
Qed.

Lemma newSecondLoop_setFlip args cf e :
  newSecondLoop (toOption <$> args) (setFlip cf) e
  = (r ← newSecondLoop (toOption <$> args) cf e; Ok (setFlip r.1, r.2)).
Proof.
  revert cf e. induction args as [|a args IH]; intros cf e; [done|].
  rewrite fmap_cons. cbn [newSecondLoop]. rewrite toOption_setFlip.
  destruct (toOption a cf e) as [r|msg]; simpl; [apply IH|done].
Qed.

Lemma newLocals_Flip args :
  newLocals (toOption <$> args ++ [ArgFlip])
  = (r ← newLocals (toOption <$> args); Ok (setFlip r.1, r.2)).
Proof.
  unfold newLocals. rewrite fmap_app, newFirstLoop_app.
  destruct (newFirstLoop (toOption <$> args) defaultConfig) as [cf1|msg]; simpl; [|done].
  fold (setFlip cf1).
  rewrite newSecondLoop_app, newSecondLoop_setFlip.
  by destruct (newSecondLoop (toOption <$> args) cf1 _) as [r|msg].
Qed.

(** C10.  Appending [Flip()] to the options sets the flip flag of the
    configuration [new] builds and changes nothing else: the encoder
    [new] returns is the same, [Encode] makes the same calls and
    returns the same result whether the flag of its configuration is
    set or not, and so does [SVG] with and without the option.
    [xyForSquare] has the square as its only input. *)
Theorem Flip_changes_no_call
    (MustAsset : string -> result string) (k : Sink) (b : Board)
    (args : list OptionArg) (e : encoder) (h : list call) :
  newLocals (toOption <$> args ++ [ArgFlip])
  = (r ← newLocals (toOption <$> args); Ok (setFlip r.1, r.2))
  /\ new (toOption <$> args ++ [ArgFlip]) = new (toOption <$> args)
  /\ Encode MustAsset (withFlip e) b k h = Encode MustAsset e b k h
  /\ SVG MustAsset k b (toOption <$> args ++ [ArgFlip]) h
     = SVG MustAsset k b (toOption <$> args) h.
Proof.
  assert (Hnew : new (toOption <$> args ++ [ArgFlip]) = new (toOption <$> args)).
  { unfold new. rewrite newLocals_Flip.
    by destruct (newLocals (toOption <$> args)) as [r|msg]. }
  split; [apply newLocals_Flip|]. split; [exact Hnew|].
  split; [apply Encode_withFlip|]. unfold SVG. by rewrite Hnew.
Qed.

(** ** Further properties of the encoder *)

(** X2.  The colour of a label is the other colour of the
    configuration than the fill of its square: light text on a dark
    square, dark text on a light one. *)
Theorem label_color_opposes_fill (e : encoder) (c : config) (sq : Square) :
  cfg e = Some c ->
  (colorForSquare e sq = Ok (dark c) /\ colorForText e sq = Ok (light c))
  \/ (colorForSquare e sq = Ok (light c) /\ colorForText e sq = Ok (dark c)).
Proof.
  intros Hc. rewrite (colorForSquare_cfg e c sq Hc), (colorForText_cfg e c sq Hc).
  unfold fillColor, textColor. destruct (Z.even _); [by left|by right].
Qed.

Lemma label_color_opposes_fill_witness :
  (colorForSquare defaultEncoder 0 = Ok (dark defaultConfig)
   /\ colorForText defaultEncoder 0 = Ok (light defaultConfig))
  \/ (colorForSquare defaultEncoder 0 = Ok (light defaultConfig)
      /\ colorForText defaultEncoder 0 = Ok (dark defaultConfig)).
Proof. apply (label_color_opposes_fill defaultEncoder defaultConfig 0). reflexivity. Defined.

(** X3.  The board is 8 squares wide and 8 squares high: [boardSize]
    returns 8 times the square width and height (for sizes far from the
    range of [int]). *)
Theorem boardSize_is_eight_squares (m : option (gmap Z Color)) (c : config) :
  0 <= sqWidth c < 2 ^ 60 -> 0 <= sqHeight c < 2 ^ 60 ->
  boardSize (mkEncoder m (Some c)) = Ok (8 * sqWidth c, 8 * sqHeight c).
Proof.
  intros Hw Hh. unfold boardSize, int_mul, int_wrap. cbn [cfg].
  f_equal. f_equal.
  - rewrite Z.mod_small by lia. lia.
  - rewrite Z.mod_small by lia. lia.
Qed.

Lemma boardSize_is_eight_squares_witness :
  boardSize defaultEncoder = Ok (8 * 45, 8 * 45).
Proof.
  apply (boardSize_is_eight_squares (Some ∅) defaultConfig); simpl; lia.
Defined.

(** A run to compare with: an empty board under the default
    configuration, on a sink where nothing fails: [Init], then 64 fills, 32 of each default
    colour, 16 labels (the rank digits on file A from 1 up to 8, the
    file letters a to h on rank 1), no piece draw and no overlay, then
    [End]; [nil] is returned. *)
Theorem empty_board_default_scenario :
  let r := Encode plainAssets defaultEncoder emptyBoard quietSink [] in
  r.2 = Ok nil
  /\ head r.1 = Some Format_Init
  /\ last r.1 = Some canvas_End
  /\ length (fills r.1) = 64%nat
  /\ length (filter (fun a => a.2 = dark defaultConfig) (fills r.1)) = 32%nat
  /\ length (filter (fun a => a.2 = light defaultConfig) (fills r.1)) = 32%nat
  /\ (labels r.1).*2
     = ["1"; "a"; "b"; "c"; "d"; "e"; "f"; "g"; "h"; "2"; "3"; "4"; "5"; "6"; "7"; "8"]
  /\ pieceDraws r.1 = []
  /\ overlays r.1 = [].
Proof. vm_compute. repeat split; reflexivity. Qed.

(** ** Option resolution, continued *)

(** An option that marks nothing leaves the encoder as it is and
    updates the configuration by [cfgStep]. *)
Lemma toOption_marksNothing a cf e :
  marksNothing a = true -> toOption a cf e = Ok (cfgStep cf a, e).
Proof. by destruct a as [| |col [|sq sqs]]. Qed.

Lemma newFirstLoop_marksNothing args cf :
  forallb marksNothing args = true ->
  newFirstLoop (toOption <$> args) cf = Ok (resolveCfg args cf).
Proof.
  revert cf. induction args as [|a args IH]; intros cf Hall; [done|].
  apply andb_prop in Hall as [Ha Hall].
  rewrite fmap_cons. cbn [newFirstLoop]. rewrite (toOption_marksNothing a _ _ Ha).
  apply (IH _ Hall).
Qed.

Lemma newSecondLoop_marksNothing args cf e :
  forallb marksNothing args = true ->
  newSecondLoop (toOption <$> args) cf e = Ok (resolveCfg args cf, e).
Proof.
  revert cf. induction args as [|a args IH]; intros cf Hall; [done|].
  apply andb_prop in Hall as [Ha Hall].
  rewrite fmap_cons. cbn [newSecondLoop]. rewrite (toOption_marksNothing a _ _ Ha).
  apply (IH _ Hall).
Qed.

Lemma marksNothing_false a :
  marksNothing a = false -> exists col sq sqs, a = ArgMarkSquares col (sq :: sqs).
Proof. destruct a as [| |col [|sq sqs]]; try done. intros _. by exists col, sq, sqs. Qed.

Lemma forallb_marksNothing_false args :
  forallb marksNothing args = false ->
  exists col sq sqs, ArgMarkSquares col (sq :: sqs) ∈ args.
Proof.
  induction args as [|a args IH]; [done|]. simpl.
  destruct (marksNothing a) eqn:Ha; simpl.
  - intros H. destruct (IH H) as (col & sq & sqs & Hin).
    exists col, sq, sqs. by apply list_elem_of_further.
  - intros _. destruct (marksNothing_false a Ha) as (col & sq & sqs & ->).
    exists col, sq, sqs. apply list_elem_of_here.
Qed.

(** The fields of a configuration after one pass of the options. *)
Lemma resolveCfg_fields args cf :
  resolveCfg args cf
  = mkConfig (sqWidth cf) (sqHeight cf) (flip cf || existsb isFlip args)
      (lastColors args (light cf, dark cf)).1 (lastColors args (light cf, dark cf)).2.
Proof.
  revert cf. induction args as [|a args IH]; intros cf.
  - destruct cf. simpl. by rewrite orb_false_r.
  - unfold resolveCfg, lastColors in *. cbn [foldl existsb]. rewrite IH.
    destruct a as [|l d|col sqs]; simpl; try done.
    by rewrite orb_true_r.
Qed.

(** Either the options hold a [SquareColors], and the colours they end
    with do not depend on the colours they start from, or they hold
    none, and the colours stay. *)
Lemma lastColors_cases args :
  (forall s1 s2, lastColors args s1 = lastColors args s2)
  \/ (forall s, lastColors args s = s).
Proof.
  induction args as [|a args IH]; [by right|].
  destruct a as [|l d|col sqs]; [exact IH| |exact IH].
  left. intros s1 s2. reflexivity.
Qed.

Lemma lastColors_twice args start :
  lastColors args (lastColors args start) = lastColors args start.
Proof.
  destruct (lastColors_cases args) as [Hconst|Hid]; [apply Hconst|by rewrite !Hid].
Qed.

(** A second pass of the same options changes nothing. *)
Lemma resolveCfg_twice args cf :
  resolveCfg args (resolveCfg args cf) = resolveCfg args cf.
Proof.
  rewrite (resolveCfg_fields args (resolveCfg args cf)).
  rewrite (resolveCfg_fields args cf). cbn [sqWidth sqHeight flip light dark].
  rewrite <- surjective_pairing, lastColors_twice.
  f_equal. by destruct (flip cf), (existsb isFlip args).
Qed.

(** X5.  [new] returns an encoder exactly when no option writes an
    entry of the mark map, and the encoder it returns is always the
    same: an empty mark map and no configuration.  Nothing of what the
    options ask for reaches the caller. *)
Theorem new_returns_the_bare_encoder (args : list OptionArg) (e : encoder) :
  new (toOption <$> args) = Ok e
  <-> forallb marksNothing args = true /\ e = mkEncoder (Some ∅) None.
Proof.
  unfold new, newLocals. destruct (forallb marksNothing args) eqn:Hall.
  - rewrite (newFirstLoop_marksNothing args _ Hall).
    cbn [mbind result_bind]. rewrite (newSecondLoop_marksNothing args _ _ Hall).
    cbn [mbind result_bind snd]. split; [by intros [= <-]|by intros [_ ->]].
  - destruct (forallb_marksNothing_false args Hall) as (col & sq & sqs & Hin).
    destruct (newFirstLoop_marks args defaultConfig col sq sqs Hin) as [msg ->].
    split; [done|by intros [? _]].
Qed.

(** X6.  When the two loops of [new] run through, the configuration
    they leave is the one a single left-to-right pass of the options
    over the defaults gives: applying every option twice is harmless.
    The squares stay 45 by 45, the flip flag is set exactly when a
    [Flip] is among the options, and the colours are those of the last
    [SquareColors], or the defaults when there is none. *)
Theorem options_resolve_as_one_pass
    (args : list OptionArg) (cf : config) (e : encoder) :
  newLocals (toOption <$> args) = Ok (cf, e) ->
  cf = resolveCfg args defaultConfig
  /\ sqWidth cf = 45 /\ sqHeight cf = 45
  /\ flip cf = existsb isFlip args
  /\ (light cf, dark cf) = lastColors args (light defaultConfig, dark defaultConfig).
Proof.
  unfold newLocals. destruct (forallb marksNothing args) eqn:Hall.
  - rewrite (newFirstLoop_marksNothing args _ Hall).
    cbn [mbind result_bind]. rewrite (newSecondLoop_marksNothing args _ _ Hall).
    rewrite resolveCfg_twice. intros [= <- _]. split; [done|].
    rewrite resolveCfg_fields. cbn [sqWidth sqHeight flip light dark defaultConfig].
    by rewrite <- surjective_pairing.
  - destruct (forallb_marksNothing_false args Hall) as (col & sq & sqs & Hin).
    by destruct (newFirstLoop_marks args defaultConfig col sq sqs Hin) as [msg ->].
Qed.

Lemma options_resolve_as_one_pass_witness :
  let cf := mkConfig 45 45 true red (color_RGBA 0 0 255 255) in
  cf = resolveCfg [ArgSquareColors (color_RGBA 1 2 3 4) red; ArgFlip;
                   ArgSquareColors red (color_RGBA 0 0 255 255)] defaultConfig
  /\ sqWidth cf = 45 /\ sqHeight cf = 45
  /\ flip cf = true
  /\ (light cf, dark cf) = (red, color_RGBA 0 0 255 255).
Proof.
  intros cf.
  apply (options_resolve_as_one_pass
           [ArgSquareColors (color_RGBA 1 2 3 4) red; ArgFlip;
            ArgSquareColors red (color_RGBA 0 0 255 255)]
           cf (mkEncoder (Some ∅) None)).
  reflexivity.
Defined.

(** ** [MarkSquares] on a live map *)

Lemma markAll_lookup col sqs m c0 :
  exists m',
    markAll col sqs (mkEncoder (Some m) c0) = Ok (mkEncoder (Some m') c0)
    /\ forall sq, m' !! sq = if decide (sq ∈ sqs) then Some col else m !! sq.
Proof.
  revert m. induction sqs as [|s sqs IH]; intros m.
  - exists m. split; [done|]. intros sq. rewrite decide_False; [done|]. apply not_elem_of_nil.
  - destruct (IH (<[s := col]> m)) as (m' & Hrun & Hlook).
    exists m'. split; [exact Hrun|]. intros sq. rewrite Hlook.
    destruct (decide (sq ∈ sqs)) as [Hin|Hin].
    + rewrite decide_True; [done|]. by apply list_elem_of_further.
    + destruct (decide (sq = s)) as [->|Hne].
      * rewrite lookup_insert_eq, decide_True; [done|]. apply list_elem_of_here.
      * rewrite lookup_insert_ne by done. rewrite decide_False; [done|].
        rewrite not_elem_of_cons. done.
Qed.

(** X7.  Handed an encoder whose mark map exists, [MarkSquares] always
    succeeds: afterwards each of the squares given is marked with the
    colour given, whatever mark it had, every other square keeps its
    mark or stays unmarked, and the configuration is untouched.  With
    no square given it succeeds on a nil map as well and changes
    nothing. *)
Theorem MarkSquares_sets_the_marks
    (col : Color) (sqs : list Square) (cf : config)
    (m : gmap Z Color) (c0 : option config) :
  (exists m',
     MarkSquares col sqs cf (mkEncoder (Some m) c0) = Ok (cf, mkEncoder (Some m') c0)
     /\ forall sq,
          marks_lookup (mkEncoder (Some m') c0) sq
          = if decide (sq ∈ sqs) then Some col else m !! sq)
  /\ MarkSquares col [] cf (mkEncoder None c0) = Ok (cf, mkEncoder None c0).
Proof.
  split; [|done].
  destruct (markAll_lookup col sqs m c0) as (m' & Hrun & Hlook).
  exists m'. split; [|exact Hlook]. unfold MarkSquares. by rewrite Hrun.
Qed.

(** ** What [Encode] reads *)

Lemma forEach_ext_in (f g : Z -> draw flow) (sqs : list Z) (h : list call) :
  (forall i h', i ∈ sqs -> f i h' = g i h') -> forEach f sqs h = forEach g sqs h.
Proof.
  revert h. induction sqs as [|i sqs IH]; intros h Hfg; [done|].
  cbn [forEach]. unfold mbind, draw_bind. rewrite Hfg by apply list_elem_of_here.
  destruct (g i h) as [h' [[|err]|msg]]; [|done..].
  apply IH. intros j h'' Hj. apply Hfg. by apply list_elem_of_further.
Qed.

Section EncodeInputs.

Variable MustAsset : string -> result string.

(** A round reads the configuration, the mark of its square and the
    piece on its square, and nothing else of the encoder and the
    board. *)
Lemma encodeSquare_reads e e' bm bm' k i h :
  cfg e = cfg e' ->
  marks_lookup e i = marks_lookup e' i ->
  default NoPiece (bm !! i) = default NoPiece (bm' !! i) ->
  encodeSquare MustAsset e bm k i h = encodeSquare MustAsset e' bm' k i h.
Proof.
  intros Hc Hm Hp. unfold encodeSquare, colorForSquare, colorForText.
  cbv zeta. by rewrite Hc, Hm, Hp.
Qed.

Lemma Encode_reads e e' b b' k h :
  cfg e = cfg e' ->
  (forall sq, 0 <= sq < 64 ->
     marks_lookup e sq = marks_lookup e' sq
     /\ default NoPiece (SquareMap b !! sq) = default NoPiece (SquareMap b' !! sq)) ->
  Encode MustAsset e b k h = Encode MustAsset e' b' k h.
Proof.
  intros Hc Hin. unfold Encode, mbind, draw_bind, lift, perform, boardSize.
  rewrite Hc. destruct (cfg e') as [c|] eqn:Hc'; [|done].
  rewrite (forEach_ext_in _ (encodeSquare MustAsset e' (SquareMap b') k)); [done|].
  intros i h' Hi. apply elem_of_seqZ in Hi.
  destruct (Hin i ltac:(lia)) as [Hm Hp].
  apply encodeSquare_reads; [congruence|done..].
Qed.

(** X8.  [Encode] looks at the mark map and at the board on the squares
    0-63 only: two encoders with the same configuration whose marks
    agree there, and two boards whose pieces agree there, give the same
    calls and the same result.  An entry under any other key is never
    read. *)
Theorem Encode_reads_squares_0_to_63
    (e e' : encoder) (b b' : Board) (k : Sink) (h : list call) :
  cfg e = cfg e' ->
  (forall sq, 0 <= sq < 64 ->
     marks_lookup e sq = marks_lookup e' sq
     /\ default NoPiece (SquareMap b !! sq) = default NoPiece (SquareMap b' !! sq)) ->
  Encode MustAsset e b k h = Encode MustAsset e' b' k h.
Proof. apply Encode_reads. Qed.

(** X9.  A nil mark map reads as an empty one: an encoder whose [marks]
    field was never made draws exactly what an encoder with an empty
    map draws, with no overlay. *)
Theorem Encode_nil_marks_as_empty
    (c0 : option config) (b : Board) (k : Sink) (h : list call) :
  Encode MustAsset (mkEncoder None c0) b k h
  = Encode MustAsset (mkEncoder (Some ∅) c0) b k h.
Proof.
  apply Encode_reads; [done|]. intros sq _. split; [|done].
  unfold marks_lookup. cbn [marks]. by rewrite lookup_empty.
Qed.

Lemma encodeSquare_writer_only e bm (k k' : Sink) i h :
  (forall h0 s, k h0 (io_WriteString s) = k' h0 (io_WriteString s)) ->
  encodeSquare MustAsset e bm k i h = encodeSquare MustAsset e bm k' i h.
Proof.
  intros Hw. unfold encodeSquare, mbind, draw_bind, mret, draw_ret, lift, perform.
  cbv zeta.
  destruct (xyForSquare i) as [x y].
  destruct (colorForSquare e i) as [col|msg]; [|done].
  destruct (colorForText e i) as [tcol|tmsg];
  destruct (marks_lookup e i) as [mc|]; destruct (deref (cfg e)) as [conf|dmsg];
    try done; repeat case_decide; try done;
    try (destruct (pieceXML MustAsset x y _) as [xml|pmsg]; [|done]);
    rewrite ?Hw;
    repeat match goal with
    | |- context [k' ?h0 (io_WriteString ?s)] =>
        destruct (k' h0 (io_WriteString s)) eqn:?
    end; try done.
Qed.

(** X10.  Of all the answers of the sink, [Encode] reads only those to
    the writes of glyphs: two sinks that answer every [io.WriteString]
    alike lead to the same calls and the same result, whatever [Init],
    [DrawSquare], [Rect], [Text] and [End] answer. *)
Theorem Encode_reads_writer_answers_only
    (e : encoder) (b : Board) (k k' : Sink) (h : list call) :
  (forall h0 s, k h0 (io_WriteString s) = k' h0 (io_WriteString s)) ->
  Encode MustAsset e b k h = Encode MustAsset e b k' h.
Proof.
  intros Hw. unfold Encode, mbind, draw_bind, lift, perform.
  destruct (boardSize e) as [wh|msg]; [|done].
  by rewrite (forEach_ext _ (encodeSquare MustAsset e (SquareMap b) k'))
    by (intros; by apply encodeSquare_writer_only).
Qed.

End EncodeInputs.

Lemma Encode_reads_squares_0_to_63_witness :
  Encode plainAssets
    (mkEncoder (Some {[ 64 := red ]}) (Some defaultConfig))
    {[ 100 := mkPiece Black Queen ]} quietSink []
  = Encode plainAssets defaultEncoder emptyBoard quietSink [].
Proof.
  apply (Encode_reads_squares_0_to_63 plainAssets).
  - reflexivity.
  - intros sq Hsq. unfold marks_lookup, SquareMap, emptyBoard, defaultEncoder. cbn [marks].
    split.
    + transitivity (@None Color); [apply lookup_singleton_ne; lia|done].
    + f_equal. transitivity (@None Piece); [apply lookup_singleton_ne; lia|done].
Defined.

Lemma Encode_reads_writer_answers_only_witness :
  Encode plainAssets markedEncoder kingOnB1 failingFormat []
  = Encode plainAssets markedEncoder kingOnB1 quietSink [].
Proof.
  apply (Encode_reads_writer_answers_only plainAssets).
  intros h0 s. reflexivity.
Defined.

(** ** How an [Encode] call ends *)

Section EncodeEnds.

Variable MustAsset : string -> result string.

Lemma Encode_nil_cfg e b k h :
  cfg e = None ->
  Encode MustAsset e b k h = (h, Panic "invalid memory address or nil pointer dereference").
Proof. intros Hc. unfold Encode, boardSize. by rewrite Hc. Qed.

Lemma labels_app h1 h2 : labels (h1 ++ h2) = labels h1 ++ labels h2.
Proof. apply omap_app. Qed.

(** A round that returns does so right after a write that failed, with
    the error of that write. *)
Lemma encodeSquare_return e bm (k : Sink) i h h1 err :
  encodeSquare MustAsset e bm k i h = (h1, Ok (ReturnErr err)) ->
  exists h0 xml msg,
    err = Some msg /\ h1 = h0 ++ [io_WriteString xml]
    /\ k h0 (io_WriteString xml) = Some msg.
Proof.
  unfold encodeSquare, mbind, draw_bind, mret, draw_ret, lift, perform.
  cbv zeta.
  destruct (xyForSquare i) as [x y].
  destruct (colorForSquare e i) as [col|msg]; [|done].
  destruct (colorForText e i) as [tcol|tmsg];
  destruct (marks_lookup e i) as [mc|]; destruct (deref (cfg e)) as [conf|dmsg];
    try done; repeat case_decide; try done;
    try (destruct (pieceXML MustAsset x y _) as [xml|pmsg]; [|done]);
    repeat match goal with
    | |- context [k ?h0 (io_WriteString ?s)] =>
        destruct (k h0 (io_WriteString s)) eqn:?
    end; try done; intros [= <- <-]; eauto 10.
Qed.

(** A round that runs on has written the glyph of the piece on its
    square, if there is one, and the labels of its square. *)
Lemma encodeSquare_continue e bm (k : Sink) i h h1 :
  encodeSquare MustAsset e bm k i h = (h1, Ok Continue) ->
  exists new,
    h1 = h ++ new
    /\ Ok <$> glyphs new
       = (if decide (pieceAt bm i <> NoPiece)
          then [pieceXML MustAsset (File i) (7 - Rank i) (pieceAt bm i)]
          else [])
    /\ (labels new).*2 = labelTexts i.
Proof.
  unfold encodeSquare, mbind, draw_bind, mret, draw_ret, lift, perform, labelTexts, pieceAt.
  cbv zeta. unfold xyForSquare. cbv zeta.
  destruct (colorForSquare e i) as [col|msg]; [|done].
  destruct (colorForText e i) as [tcol|tmsg];
  destruct (marks_lookup e i) as [mc|]; destruct (deref (cfg e)) as [conf|dmsg];
    try done; repeat case_decide; try done;
    try (destruct (pieceXML MustAsset _ _ _) as [xml|pmsg]; [|done]);
    repeat match goal with
    | |- context [k ?h0 (io_WriteString ?s)] =>
        destruct (k h0 (io_WriteString s)) eqn:?
    end; try done; intros [= <-]; rewrite <- ?app_assoc;
    eexists; (split; [reflexivity|]); done.
Qed.

Lemma forEach_return e bm (k : Sink) sqs h h1 err :
  forEach (encodeSquare MustAsset e bm k) sqs h = (h1, Ok (ReturnErr err)) ->
  exists h0 xml msg,
    err = Some msg /\ h1 = h0 ++ [io_WriteString xml]
    /\ k h0 (io_WriteString xml) = Some msg.
Proof.
  revert h. induction sqs as [|i sqs IH]; intros h; [done|].
  cbn [forEach]. unfold mbind, draw_bind.
  destruct (encodeSquare MustAsset e bm k i h) as [h' [[|err']|msg]] eqn:Hround.
  - apply IH.
  - intros [= <- <-]. by apply encodeSquare_return in Hround.
  - done.
Qed.

Lemma forEach_continue e bm (k : Sink) sqs h h1 :
  forEach (encodeSquare MustAsset e bm k) sqs h = (h1, Ok Continue) ->
  exists new,
    h1 = h ++ new
    /\ Ok <$> glyphs new
       = (fun sq => pieceXML MustAsset (File sq) (7 - Rank sq) (pieceAt bm sq))
           <$> filter (fun sq => pieceAt bm sq <> NoPiece) sqs
    /\ (labels new).*2 = concat (labelTexts <$> sqs).
Proof.
  revert h. induction sqs as [|i sqs IH]; intros h.
  - intros [= <-]. exists []. by rewrite app_nil_r.
  - cbn [forEach]. unfold mbind, draw_bind.
    destruct (encodeSquare MustAsset e bm k i h) as [h' [[|err']|msg]] eqn:Hround; [|done..].
    intros Hrest. apply encodeSquare_continue in Hround as (new1 & -> & Hg1 & Hl1).
    apply IH in Hrest as (new2 & -> & Hg2 & Hl2).
    exists (new1 ++ new2). split; [by rewrite app_assoc|].
    rewrite glyphs_app, labels_app, !fmap_app, Hg1, Hg2, Hl1, Hl2, fmap_cons.
    split; [|done]. rewrite filter_cons. by case_decide.
Qed.

(** X11.  When [Encode] returns an error, the last call it made is the
    write of a glyph, and the error is what the writer answered to
    that write: nothing is drawn after the failure. *)
Theorem failed_write_is_the_last_call
    (e : encoder) (b : Board) (k : Sink) (msg : string) :
  (Encode MustAsset e b k []).2 = Ok (Some msg) ->
  exists h0 xml,
    (Encode MustAsset e b k []).1 = h0 ++ [io_WriteString xml]
    /\ k h0 (io_WriteString xml) = Some msg.
Proof.
  destruct (cfg e) as [c|] eqn:Hc; [|by rewrite Encode_nil_cfg].
  rewrite (Encode_unfold MustAsset e c b k [] Hc).
  destruct (forEach _ _ _) as [h1 [[|err]|pmsg]] eqn:Hloop; [done| |done].
  cbn [fst snd]. intros [= ->].
  apply forEach_return in Hloop as (h0 & xml & msg' & [= <-] & -> & Hk).
  by exists h0, xml.
Qed.

(** X12.  When [Encode] returns [nil] it has written exactly one glyph
    for every occupied square among 0-63, in ascending order of the
    squares: the document [pieceXML] returns for the piece at the grid
    cell of the square. *)
Theorem one_glyph_per_occupied_square (e : encoder) (b : Board) (k : Sink) :
  (Encode MustAsset e b k []).2 = Ok nil ->
  Ok <$> glyphs (Encode MustAsset e b k []).1
  = (fun sq => pieceXML MustAsset (xyForSquare sq).1 (xyForSquare sq).2
                 (default NoPiece (SquareMap b !! sq)))
      <$> filter (fun sq => default NoPiece (SquareMap b !! sq) <> NoPiece) (seqZ 0 64).
Proof.
  destruct (cfg e) as [c|] eqn:Hc; [|by rewrite Encode_nil_cfg].
  rewrite (Encode_unfold MustAsset e c b k [] Hc).
  destruct (forEach _ _ _) as [h1 [[|err]|pmsg]] eqn:Hloop; [| |done].
  2:{ apply forEach_return in Hloop as (? & ? & ? & -> & _). done. }
  intros _. apply forEach_continue in Hloop as (new & -> & Hg & _).
  cbn [fst app]. change (glyphs (Format_Init :: ?l)) with (glyphs l).
  rewrite glyphs_app. change (glyphs [canvas_End]) with ([] : list string).
  rewrite app_nil_r. exact Hg.
Qed.

(** X13.  When [Encode] returns [nil] it has drawn 16 labels, whatever
    the board, the marks and the configuration: the rank digit on each
    square of file A and the file letter on each square of rank 1, in
    the order of the squares. *)
Theorem sixteen_labels (e : encoder) (b : Board) (k : Sink) :
  (Encode MustAsset e b k []).2 = Ok nil ->
  (labels (Encode MustAsset e b k []).1).*2
  = ["1"; "a"; "b"; "c"; "d"; "e"; "f"; "g"; "h"; "2"; "3"; "4"; "5"; "6"; "7"; "8"].
Proof.
  destruct (cfg e) as [c|] eqn:Hc; [|by rewrite Encode_nil_cfg].
  rewrite (Encode_unfold MustAsset e c b k [] Hc).
  destruct (forEach _ _ _) as [h1 [[|err]|pmsg]] eqn:Hloop; [| |done].
  2:{ apply forEach_return in Hloop as (? & ? & ? & -> & _). done. }
  intros _. apply forEach_continue in Hloop as (new & -> & _ & Hl).
  cbn [fst app]. change (labels (Format_Init :: ?l)) with (labels l).
  rewrite labels_app. change (labels [canvas_End]) with ([] : list (Z * Z * string)).
  rewrite app_nil_r, Hl. vm_compute. reflexivity.
Qed.

End EncodeEnds.

Lemma failed_write_is_the_last_call_witness :
  exists h0 xml,
    (Encode plainAssets defaultEncoder kingOnA1 brokenWriter []).1
    = h0 ++ [io_WriteString xml]
    /\ brokenWriter h0 (io_WriteString xml) = Some "short write".
Proof.
  apply (failed_write_is_the_last_call plainAssets defaultEncoder kingOnA1
           brokenWriter "short write").
  vm_compute. reflexivity.
Defined.

Lemma one_glyph_per_occupied_square_witness :
  Ok <$> glyphs (Encode plainAssets defaultEncoder kingOnB1 quietSink []).1
  = (fun sq => pieceXML plainAssets (xyForSquare sq).1 (xyForSquare sq).2
                 (default NoPiece (SquareMap kingOnB1 !! sq)))
      <$> filter (fun sq => default NoPiece (SquareMap kingOnB1 !! sq) <> NoPiece)
            (seqZ 0 64).
Proof.
  apply (one_glyph_per_occupied_square plainAssets defaultEncoder kingOnB1 quietSink).
  vm_compute. reflexivity.
Defined.

Lemma sixteen_labels_witness :
  (labels (Encode plainAssets markedEncoder kingOnB1 quietSink []).1).*2
  = ["1"; "a"; "b"; "c"; "d"; "e"; "f"; "g"; "h"; "2"; "3"; "4"; "5"; "6"; "7"; "8"].
Proof.
  apply (sixteen_labels plainAssets markedEncoder kingOnB1 quietSink).
  vm_compute. reflexivity.
Defined.

(** ** The calls [Encode] makes *)

Section EncodeCalls.

Variable MustAsset : string -> result string.

Lemma roundCalls_isRoundCall c e b sq :
  Forall (fun x => isRoundCall x = true) (roundCalls MustAsset c e b sq)
  /\ Forall (fun x => isRoundCall x = true) (cutRoundCalls MustAsset c e b sq).
Proof.
  unfold roundCalls, cutRoundCalls, overlayCalls, pieceCalls, labelCalls, fillCall.
  destruct (marks_lookup e sq); repeat case_decide;
    try destruct (pieceXML _ _ _ _); split; repeat constructor.
Qed.

Lemma rounds_isRoundCall c e b sqs :
  Forall (fun x => isRoundCall x = true) (concat (roundCalls MustAsset c e b <$> sqs)).
Proof.
  induction sqs as [|sq sqs IH]; [constructor|].
  rewrite fmap_cons. cbn [concat]. apply Forall_app. split; [|exact IH].
  apply roundCalls_isRoundCall.
Qed.

(** X14.  [Encode] calls [End] exactly when it returns [nil], and then
    as its last call: after a failed write, and on a panic, the canvas
    is left open. *)
Theorem canvas_is_closed_iff_nil_returned (e : encoder) (b : Board) (k : Sink) :
  (canvas_End ∈ (Encode MustAsset e b k []).1 <-> (Encode MustAsset e b k []).2 = Ok nil)
  /\ ((Encode MustAsset e b k []).2 = Ok nil ->
      last (Encode MustAsset e b k []).1 = Some canvas_End).
Proof.
  destruct (cfg e) as [c|] eqn:Hc.
  - destruct (Encode_outcome MustAsset e c b k [] Hc)
      as [->|(n & _ & _ & Hh & Hres)]; cbn [fst snd app].
    + split; [|intros _; by rewrite app_comm_cons, last_snoc].
      split; [done|]. intros _. rewrite app_comm_cons, elem_of_app. right.
      apply list_elem_of_here.
    + assert (Hnot : (Encode MustAsset e b k []).2 <> Ok nil).
      { destruct Hres as [(msg & _ & _ & -> & _)|[msg ->]]; done. }
      split; [|done]. split; [|done]. rewrite Hh. cbn [app].
      intros Hin. apply elem_of_cons in Hin as [Hin|Hin]; [done|].
      apply elem_of_app in Hin as [Hin|Hin].
      * pose proof (rounds_isRoundCall c e b (seqZ 0 n)) as Hall.
        rewrite Forall_forall in Hall. by apply Hall in Hin.
      * destruct (roundCalls_isRoundCall c e b n) as [_ Hall].
        rewrite Forall_forall in Hall. by apply Hall in Hin.
  - rewrite (Encode_nil_cfg MustAsset e b k [] Hc). cbn [fst snd].
    split; [|done]. split; [|done]. intros Hin. by apply elem_of_nil in Hin.
Qed.

(** X15.  [Encode] never calls the [DrawPiece] method of the sink: a
    piece reaches the output only as a glyph written to the canvas'
    writer. *)
Theorem Encode_never_calls_DrawPiece
    (e : encoder) (b : Board) (k : Sink) (x y : Z) (p : Piece) :
  Format_DrawPiece x y p ∉ (Encode MustAsset e b k []).1.
Proof.
  destruct (cfg e) as [c|] eqn:Hc.
  - intros Hin.
    assert (Hrounds : forall l l',
              Forall (fun x => isRoundCall x = true) l ->
              Forall (fun x => isRoundCall x = true) l' ->
              Format_DrawPiece x y p ∈ Format_Init :: l ++ l' -> False).
    { intros l l' Hl Hl' H. apply elem_of_cons in H as [H|H]; [done|].
      rewrite Forall_forall in Hl. rewrite Forall_forall in Hl'.
      apply elem_of_app in H as [H|H]; [by apply Hl in H|by apply Hl' in H]. }
    destruct (Encode_outcome MustAsset e c b k [] Hc)
      as [Hall|(n & _ & _ & Hh & _)].
    + rewrite Hall in Hin. cbn [fst app] in Hin.
      rewrite app_comm_cons in Hin. apply elem_of_app in Hin as [Hin|Hin].
      * apply (Hrounds _ [] (rounds_isRoundCall c e b (seqZ 0 64)) (Forall_nil_2 _)).
        by rewrite app_nil_r.
      * by apply list_elem_of_singleton in Hin.
    + rewrite Hh in Hin. cbn [app] in Hin.
      apply (Hrounds _ _ (rounds_isRoundCall c e b (seqZ 0 n))
               (proj2 (roundCalls_isRoundCall c e b n)) Hin).
  - rewrite (Encode_nil_cfg MustAsset e b k [] Hc). apply not_elem_of_nil.
Qed.

End EncodeCalls.

(** ** The board as a grid *)

Lemma File_Rank_unique (sq f r : Z) :
  0 <= f <= 7 -> 0 <= r <= 7 -> sq = 8 * r + f -> File sq = f /\ Rank sq = r.
Proof.
  intros Hf Hr Hsq.
  destruct (File_Rank_range sq ltac:(lia)) as (HF & HR & Heq). lia.
Qed.

(** X16.  The squares 0-63 and the 64 cells of the 8 by 8 grid
    correspond one to one under [xyForSquare]: two different squares
    never share a cell, and every cell is the cell of a square. *)
Theorem every_cell_has_one_square :
  (forall sq sq' : Square,
     0 <= sq < 64 -> 0 <= sq' < 64 -> xyForSquare sq = xyForSquare sq' -> sq = sq')
  /\ (forall x y : Z,
        0 <= x <= 7 -> 0 <= y <= 7 ->
        exists sq : Square, 0 <= sq < 64 /\ xyForSquare sq = (x, y)).
Proof.
  split.
  - intros sq sq' Hsq Hsq' Heq. unfold xyForSquare in Heq. injection Heq as HF HR.
    destruct (File_Rank_range sq Hsq) as (_ & _ & E).
    destruct (File_Rank_range sq' Hsq') as (_ & _ & E'). lia.
  - intros x y Hx Hy. exists (8 * (7 - y) + x). split; [lia|].
    destruct (File_Rank_unique (8 * (7 - y) + x) x (7 - y)) as [HF HR]; [lia..|].
    unfold xyForSquare. rewrite HF, HR. f_equal. lia.
Qed.

(** X17.  The fills form a checkerboard: of two squares side by side
    on a rank, and of two squares one above the other on a file, one is
    filled with the dark colour and the other with the light colour. *)
Theorem neighbours_get_the_two_colours (e : encoder) (c : config) (sq : Square) :
  cfg e = Some c ->
  0 <= sq < 64 ->
  let differ (sq' : Square) :=
    (colorForSquare e sq = Ok (dark c) /\ colorForSquare e sq' = Ok (light c))
    \/ (colorForSquare e sq = Ok (light c) /\ colorForSquare e sq' = Ok (dark c)) in
  (File sq < 7 -> differ (sq + 1)) /\ (Rank sq < 7 -> differ (sq + 8)).
Proof.
  intros Hc Hsq differ. subst differ. cbv beta.
  rewrite !(colorForSquare_cfg e c _ Hc). unfold fillColor.
  destruct (File_Rank_range sq Hsq) as (HF & HR & Heq).
  split; intros Hlt.
  - destruct (File_Rank_unique (sq + 1) (File sq + 1) (Rank sq)) as [-> ->]; [lia..|].
    replace (File sq + 1 + Rank sq) with (Z.succ (File sq + Rank sq)) by lia.
    rewrite Z.even_succ, <- Z.negb_even. destruct (Z.even _); [by left|by right].
  - destruct (File_Rank_unique (sq + 8) (File sq) (Rank sq + 1)) as [-> ->]; [lia..|].
    replace (File sq + (Rank sq + 1)) with (Z.succ (File sq + Rank sq)) by lia.
    rewrite Z.even_succ, <- Z.negb_even. destruct (Z.even _); [by left|by right].
Qed.

Lemma neighbours_get_the_two_colours_witness :
  (File 0 < 7 ->
   (colorForSquare defaultEncoder 0 = Ok (dark defaultConfig)
    /\ colorForSquare defaultEncoder (0 + 1) = Ok (light defaultConfig))
   \/ (colorForSquare defaultEncoder 0 = Ok (light defaultConfig)
       /\ colorForSquare defaultEncoder (0 + 1) = Ok (dark defaultConfig)))
  /\ (Rank 0 < 7 ->
      (colorForSquare defaultEncoder 0 = Ok (dark defaultConfig)
       /\ colorForSquare defaultEncoder (0 + 8) = Ok (light defaultConfig))
      \/ (colorForSquare defaultEncoder 0 = Ok (light defaultConfig)
          /\ colorForSquare defaultEncoder (0 + 8) = Ok (dark defaultConfig))).
Proof.
  apply (neighbours_get_the_two_colours defaultEncoder defaultConfig 0).
  - reflexivity.
  - lia.
Defined.

(** ** Colours in hexadecimal, continued *)

(** X18.  For any colour whose [RGBA] method keeps to its range of
    0-65535 per channel, [colorToHex] writes the low byte of the red,
    green and blue channels, two lowercase hexadecimal digits each,
    after a [#]: adding 0.5 before the conversion never changes a
    digit, and the alpha channel is not read. *)
Theorem colorToHex_writes_the_low_bytes (r g b a : Z) :
  0 <= r <= 65535 -> 0 <= g <= 65535 -> 0 <= b <= 65535 ->
  colorToHex (mkColor (r, g, b, a))
  = "#" +:+ fmt_02x (r mod 256) +:+ fmt_02x (g mod 256) +:+ fmt_02x (b mod 256).
Proof.
  intros Hr Hg Hb. unfold colorToHex. cbn [RGBA].
  assert (Hplain : forall v, 0 <= v ->
            uint8_of_float64 (float64_of_uint32 v + (1 # 2))%Q = v mod 256).
  { intros v Hv. unfold uint8_of_float64, float64_of_uint32. cbn.
    change (Z.pos (1 * 2)) with 2.
    change 255 with (Z.ones 8). rewrite Z.land_ones by lia.
    rewrite Z.quot_div_nonneg by lia. change (2 ^ 8) with 256. f_equal.
    replace (v * 2 + 1 * 1) with (1 + v * 2) by lia.
    by rewrite Z.div_add by lia. }
  assert (Htimes : forall v, 0 <= v ->
            uint8_of_float64 (float64_of_uint32 v * 1 + (1 # 2))%Q = v mod 256).
  { intros v Hv. unfold uint8_of_float64, float64_of_uint32. cbn.
    change (Z.pos (1 * 1 * 2)) with 2.
    change 255 with (Z.ones 8). rewrite Z.land_ones by lia.
    rewrite Z.quot_div_nonneg by lia. change (2 ^ 8) with 256. f_equal.
    change (Z.pos (1 * 1)) with 1.
    replace (v * 1 * 2 + 1 * 1) with (1 + v * 2) by lia.
    by rewrite Z.div_add by lia. }
  by rewrite Hplain, !Htimes by lia.
Qed.

Lemma colorToHex_writes_the_low_bytes_witness :
  colorToHex (mkColor (60395, 53713, 42662, 257))
  = "#" +:+ fmt_02x (60395 mod 256) +:+ fmt_02x (53713 mod 256) +:+ fmt_02x (42662 mod 256).
Proof. apply (colorToHex_writes_the_low_bytes 60395 53713 42662 257); lia. Defined.

(** ** The glyph of a piece, continued *)

Lemma prefix_append (s r : string) : String.prefix s (s +:+ r) = true.
Proof.
  induction s as [|ch s IH]; simpl; [by destruct r|].
  destruct (Ascii.ascii_dec ch ch); [exact IH|done].
Qed.

Lemma substring_0_all (r : string) (m : nat) :
  (String.length r <= m)%nat -> String.substring 0 m r = r.
Proof.
  revert m. induction r as [|ch r IH]; intros m Hm; [by destruct m|].
  destruct m as [|m]; simpl in *; [lia|]. rewrite IH; [done|lia].
Qed.

Lemma substring_append (s r : string) (m : nat) :
  (String.length r <= m)%nat -> String.substring (String.length s) m (s +:+ r) = r.
Proof.
  intros Hm. induction s as [|ch s IH]; simpl; [by apply substring_0_all|exact IH].
Qed.

Lemma length_append (s r : string) :
  String.length (s +:+ r) = (String.length s + String.length r)%nat.
Proof. induction s as [|ch s IH]; simpl; [done|by rewrite IH]. Qed.

(** [strings.Replace] on a string that opens with [old]. *)
Lemma strings_Replace1_prefix (old new rest : string) :
  strings_Replace1 (old +:+ rest) old new = new +:+ rest.
Proof.
  assert (Hstep : forall s, String.prefix old s = true ->
            strings_Replace1 s old new
            = new +:+ String.substring (String.length old) (String.length s) s).
  { intros s Hp. destruct s; cbn [strings_Replace1]; by rewrite Hp. }
  rewrite Hstep by apply prefix_append.
  rewrite substring_append; [done|]. rewrite length_append. lia.
Qed.

Lemma int_neg (x : Z) : - 2 ^ 63 < x < 2 ^ 63 -> int_mul (-1) x = - x.
Proof. intros Hx. unfold int_mul, int_wrap. rewrite Z.mod_small by lia. lia. Qed.

Section Glyphs.

Variable MustAsset : string -> result string.

(** X19.  When the glyph table holds, for the piece, a document that
    opens with the 45 by 45 head, [pieceXML] returns that document
    with the head replaced by the 360 by 360 head whose view window is
    offset by minus its two arguments, and with all that follows the
    head unchanged. *)
Theorem pieceXML_swaps_the_head (x y : Z) (p : Piece) (rest : string) :
  MustAsset ("pieces/" +:+ Color_String (Piece_Color p)
             +:+ pieceTypeMap (Piece_Type p) +:+ ".svg")
  = Ok (glyphHead +:+ rest) ->
  - 2 ^ 63 < x < 2 ^ 63 ->
  - 2 ^ 63 < y < 2 ^ 63 ->
  pieceXML MustAsset x y p = Ok (viewBoxHead (- x) (- y) +:+ rest).
Proof.
  intros Hasset Hx Hy. unfold pieceXML. rewrite Hasset.
  cbn [mbind result_bind]. rewrite strings_Replace1_prefix.
  by rewrite (int_neg x Hx), (int_neg y Hy).
Qed.

End Glyphs.

Lemma pieceXML_swaps_the_head_witness :
  pieceXML plainAssets 2 5 (mkPiece Black Knight)
  = Ok (viewBoxHead (- 2) (- 5) +:+ "<g/></svg>").
Proof.
  apply (pieceXML_swaps_the_head plainAssets 2 5 (mkPiece Black Knight) "<g/></svg>").
  - reflexivity.
  - lia.
  - lia.
Defined.

(** X20.  [pieceXML] asks the glyph table for one name, which tells the
    colour and the type of the piece apart from every other: against a
    table that holds nothing, two pieces lead to the same panic exactly
    when they have the same colour and the same type, wherever they
    stand. *)
Theorem glyph_names_are_distinct
    (c c' : PieceColor) (t t' : PieceType) (x y x' y' : Z) :
  pieceXML noAssets x y (mkPiece c t) = pieceXML noAssets x' y' (mkPiece c' t')
  <-> c = c' /\ t = t'.
Proof.
  split.
  - destruct c, t, c', t'; vm_compute; intros H; first [done|congruence].
  - by intros [-> ->].
Qed.

Lemma strings_Replace1_absent (s old new : string) :
  occursIn old s = false -> strings_Replace1 s old new = s.
Proof.
  induction s as [|ch s IH]; cbn [occursIn strings_Replace1]; intros H;
    apply orb_false_elim in H as [-> H]; [done|]. by rewrite IH.
Qed.

Section GlyphsWithoutHead.

Variable MustAsset : string -> result string.

(** X4.  When the document the glyph table holds for the piece does
    not contain the 45 by 45 head, [pieceXML] returns it as it is:
    nothing is replaced, and the position handed in leaves no trace in
    the glyph. *)
Theorem pieceXML_without_head_is_the_asset (x y : Z) (p : Piece) (svg : string) :
  MustAsset ("pieces/" +:+ Color_String (Piece_Color p)
             +:+ pieceTypeMap (Piece_Type p) +:+ ".svg")
  = Ok svg ->
  occursIn glyphHead svg = false ->
  pieceXML MustAsset x y p = Ok svg.
Proof.
  intros Hasset Habsent. unfold pieceXML. rewrite Hasset.
  cbn [mbind result_bind]. by rewrite strings_Replace1_absent.
Qed.

End GlyphsWithoutHead.

Lemma pieceXML_without_head_is_the_asset_witness :
  pieceXML (fun _ => Ok "<svg><g/></svg>") 3 4 (mkPiece White Pawn) = Ok "<svg><g/></svg>".
Proof.
  apply (pieceXML_without_head_is_the_asset (fun _ => Ok "<svg><g/></svg>") 3 4
           (mkPiece White Pawn) "<svg><g/></svg>").
  - reflexivity.
  - vm_compute. reflexivity.
Defined.
